(** * pgmigrate: a shallow embedding of the migration engine

    Source: [src/pgmigrate.go] (package pgmigrate): [getVersion],
    [MigrateDatabase], [runFile].

    - Go's [int] is taken to be 64 bits wide (amd64/arm64); it is a [Z]
      together with the wrap-around of the conversions and increments the
      source performs.
    - Go strings are byte strings: [string].
    - [map[int]string] is a [gmap Z string]; reading an absent key gives
      the empty string, as in Go.
    - The [Queryer] interface of the source is a type class; the code is
      written once over it, in a state monad that threads the connection
      and records every call made on the connection and the file system.
    - [Pool] is the instance for [*sql.DB] on a PostgreSQL server, the
      value the command-line entry point passes. *)

From Stdlib Require Import ZArith Lia Ascii String.
From stdpp Require Import base option list gmap strings.

Set Warnings "-clear-no-such-hyp".

Local Open Scope string_scope.
Local Open Scope list_scope.
Local Open Scope Z_scope.

(** ** Go integers *)

Module GoInt.

Definition min_int : Z := - 2 ^ 63.
Definition max_int : Z := 2 ^ 63 - 1.

Definition is_int (z : Z) : Prop := min_int <= z <= max_int.

(** Two's complement wrap-around of a 64-bit signed integer. *)
Definition wrap (z : Z) : Z := (z + 2 ^ 63) mod 2 ^ 64 - 2 ^ 63.

(** [int(u)] for [u : uint64]. *)
Definition int_of_uint64 (u : Z) : Z := wrap u.

End GoInt.
Export GoInt.

(** ** The parts of [strings] and [strconv] the loader uses *)

Module GoStrings.

(** [strings.Split(s, sep)] for a one-byte separator: the segments
    between the separators, always at least one. *)
Fixpoint Split (sep : ascii) (s : string) : list string :=
  match s with
  | EmptyString => [EmptyString]
  | String c s' =>
      if Ascii.eqb c sep then EmptyString :: Split sep s'
      else match Split sep s' with
           | [] => [String c EmptyString]
           | seg :: segs => String c seg :: segs
           end
  end.

Definition digit (c : ascii) : option Z :=
  let n := Z.of_nat (nat_of_ascii c) in
  if (48 <=? n) && (n <=? 57) then Some (n - 48) else None.

Fixpoint digits (acc : Z) (s : string) : option Z :=
  match s with
  | EmptyString => Some acc
  | String c s' =>
      match digit c with
      | Some d => digits (acc * 10 + d) s'
      | None => None
      end
  end.

(** [strconv.ParseUint(s, 10, 64)]: [None] stands for a non-nil error
    (syntax: empty, or a byte that is no decimal digit; range: the value
    does not fit 64 bits). *)
Definition ParseUint (s : string) : option Z :=
  match s with
  | EmptyString => None
  | _ => match digits 0 s with
         | Some n => if n <? 2 ^ 64 then Some n else None
         | None => None
         end
  end.

(** [filepath.Join(dir, name)] for a clean [dir] and a [name] without
    separators: empty elements are dropped. *)
Definition Join (dir name : string) : string :=
  if decide (name = "") then dir
  else if decide (dir = "") then name
  else dir +:+ "/" +:+ name.

End GoStrings.
Export GoStrings.

(** ** Errors *)

Inductive error : Type :=
| PqError (code_name : string) (message : string)
    (* a [*pq.Error]; [code_name] is [Code.Name()] *)
| DriverError (message : string)
    (* any other error of database/sql: no rows, a value that does not
       scan as an integer, a lost connection *)
| PathError (op : string) (path : string)
    (* [*os.PathError] of [ioutil.ReadDir] and [ioutil.ReadFile] *)
| InvalidFilename (name : string)    (* "invalid version filename %s" *)
| BadFilename (name : string)        (* "Bad filename: %s" *)
| MissingUp (idx : Z)                (* "Missing Up migration %d" *)
| MissingDown (idx : Z)              (* "Missing Down migration %d" *)
| Executing (filename : string) (cause : error). (* "executing %s: %w" *)

(** The classes of section 7 of the specification. *)
Definition is_validation_error (e : error) : bool :=
  match e with
  | InvalidFilename _ | BadFilename _ | MissingUp _ | MissingDown _ => true
  | _ => false
  end.

(** ** The migration set (lines 64-106 of [MigrateDatabase]) *)

Record MigrationSet : Type := mkSet {
  upFiles : gmap Z string;
  downFiles : gmap Z string;
  maxMigration : Z
}.

Definition emptySet : MigrationSet := mkSet ∅ ∅ 0.

(** [m[idx]] of Go: the zero value for an absent key. *)
Definition at_key (m : gmap Z string) (idx : Z) : string :=
  default "" (m !! idx).

(** Body of the loop over the directory entries (lines 68-97): [inr] is
    the updated set ([continue] leaves it as it was), [inl] the error the
    function returns with. *)
Definition processFile (name : string) (ms : MigrationSet)
  : error + MigrationSet :=
  match Split "." name with
  | [p0; p1; p2] =>
      if decide (p2 = "sql") then
        let numberStr := hd "" (Split "-" p0) in
        match ParseUint numberStr with
        | None => inl (InvalidFilename name)
        | Some numberUI64 =>
            let number := int_of_uint64 numberUI64 in
            let maxMigration' :=
              if maxMigration ms <? number then number else maxMigration ms in
            if decide (p1 = "up") then
              inr (mkSet (<[number := name]> (upFiles ms)) (downFiles ms)
                         maxMigration')
            else if decide (p1 = "down") then
              inr (mkSet (upFiles ms) (<[number := name]> (downFiles ms))
                         maxMigration')
            else inl (BadFilename name)
        end
      else inr ms
  | _ => inr ms
  end.

Fixpoint indexFiles (names : list string) (ms : MigrationSet)
  : error + MigrationSet :=
  match names with
  | [] => inr ms
  | name :: rest =>
      match processFile name ms with
      | inl e => inl e
      | inr ms' => indexFiles rest ms'
      end
  end.

(** The completeness loop (lines 99-106),
    [for idx := 1; idx < maxMigration; idx++]: [n] counts the iterations
    left; [idx] stays below [maxMigration], so [idx++] cannot overflow. *)
Fixpoint checkFrom (n : nat) (idx : Z) (ms : MigrationSet) : option error :=
  match n with
  | O => None
  | S n' =>
      match upFiles ms !! idx with
      | None => Some (MissingUp idx)
      | Some _ =>
          match downFiles ms !! idx with
          | None => Some (MissingDown idx)
          | Some _ => checkFrom n' (idx + 1) ms
          end
      end
  end.

Definition validate (ms : MigrationSet) : option error :=
  checkFrom (Z.to_nat (maxMigration ms - 1)) 1 ms.

(** Discovery and validation together: what the function has computed when
    it reaches line 108. *)
Definition loadMigrations (names : list string) : error + MigrationSet :=
  match indexFiles names emptySet with
  | inl e => inl e
  | inr ms =>
      match validate ms with
      | Some e => inl e
      | None => inr ms
      end
  end.


(** ** The environment: file system and database connection *)

(** What [ioutil.ReadDir] and [ioutil.ReadFile] see.  A path is a file or
    a directory, never both, so reading a directory as a file fails. *)
Inductive node : Type :=
| File (content : string)
| Dir (entries : list string).

Definition ReadDir (fs : gmap string node) (dir : string)
  : error + list string :=
  match fs !! dir with
  | Some (Dir names) => inr names
  | Some (File _) => inl (PathError "readdirent" dir)
  | None => inl (PathError "open" dir)
  end.

Definition ReadFile (fs : gmap string node) (path : string)
  : error + string :=
  match fs !! path with
  | Some (File content) => inr content
  | Some (Dir _) => inl (PathError "read" path)
  | None => inl (PathError "open" path)
  end.

(** The [Queryer] interface (lines 21-25) with the methods of [*sql.Tx],
    over a connection state [C].  A [*sql.Row] holds the integer of the
    first column of the first row, or the error that [Scan] will report. *)
Class Queryer (C : Type) : Type := {
  Tx : Type;
  ExecContext : string -> list Z -> C -> option error * C;
  QueryRowContext : string -> C -> (error + Z) * C;
  BeginTx : C -> (error + Tx) * C;
  Commit : Tx -> C -> option error * C;
  Rollback : Tx -> C -> option error * C;
  TxExecContext : Tx -> string -> list Z -> C -> option error * C
}.

(** [Row.Scan(&currentVersion)] with [currentVersion : int]: the deferred
    error, or the value when it fits an [int]. *)
Definition Scan (row : error + Z) : error + Z :=
  match row with
  | inl err => inl err
  | inr v =>
      if decide (is_int v) then inr v
      else inl (DriverError "converting driver.Value to int: value out of range")
  end.

(** The statements the source sends (whitespace of the raw string
    literal of lines 38-41 normalised). *)
Definition select_sql : string := "SELECT version FROM _migrate_".
Definition bootstrap_sql : string :=
  "CREATE TABLE _migrate_ (version int primary key); INSERT INTO _migrate_ (version) VALUES (0);".
Definition update_sql : string := "UPDATE _migrate_ SET version = $1;".

(** Calls made on the environment, in the order they are made. *)
Inductive Call : Type :=
| CallQueryRow (q : string)
| CallExec (q : string) (args : list Z)      (* conn.ExecContext *)
| CallBegin                                  (* conn.BeginTx *)
| CallTxExec (q : string) (args : list Z)    (* tx.ExecContext *)
| CallCommit                                 (* tx.Commit *)
| CallRollback                               (* tx.Rollback *)
| CallReadDir (dir : string)
| CallReadFile (path : string).

Inductive result (A : Type) : Type :=
| Ok (a : A)
| Err (e : error)
| OutOfFuel.
Arguments Ok {A} a.
Arguments Err {A} e.
Arguments OutOfFuel {A}.

Record World (C : Type) : Type := mkWorld {
  conn : C;
  calls : list Call
}.
Arguments mkWorld {C} conn calls.
Arguments conn {C} w.
Arguments calls {C} w.

(** ** The engine *)

Section Engine.

Context {C : Type} `{Q : Queryer C}.
Variable fs : gmap string node.

Definition M (A : Type) : Type := World C -> result A * World C.

Definition ret {A} (a : A) : M A := fun w => (Ok a, w).
Definition fail {A} (e : error) : M A := fun w => (Err e, w).
Definition out_of_fuel {A} : M A := fun w => (OutOfFuel, w).

Definition bind {A B} (m : M A) (k : A -> M B) : M B :=
  fun w =>
    match m w with
    | (Ok a, w') => k a w'
    | (Err e, w') => (Err e, w')
    | (OutOfFuel, w') => (OutOfFuel, w')
    end.

Notation "'do' x <- m ; k" := (bind m (fun x => k))
  (at level 10, x name, m at level 100, k at level 200,
   format "'[v' 'do'  x  <-  m ; '/' k ']'").

(** One call on the connection: run it, record it. *)
Definition on_conn {A} (c : Call) (f : C -> A * C) : M A :=
  fun w => let '(a, c') := f (conn w) in (Ok a, mkWorld c' (calls w ++ [c])).

Definition on_fs {A} (c : Call) (a : A) : M A :=
  fun w => (Ok a, mkWorld (conn w) (calls w ++ [c])).

Definition execContext (q : string) (args : list Z) : M (option error) :=
  on_conn (CallExec q args) (ExecContext q args).
Definition queryRowContext (q : string) : M (error + Z) :=
  on_conn (CallQueryRow q) (QueryRowContext q).
Definition beginTx : M (error + Tx) := on_conn CallBegin BeginTx.
Definition commit (tx : Tx) : M (option error) :=
  on_conn CallCommit (Commit tx).
Definition rollback (tx : Tx) : M (option error) :=
  on_conn CallRollback (Rollback tx).
Definition txExecContext (tx : Tx) (q : string) (args : list Z)
  : M (option error) :=
  on_conn (CallTxExec q args) (TxExecContext tx q args).
Definition readDir (dir : string) : M (error + list string) :=
  on_fs (CallReadDir dir) (ReadDir fs dir).
Definition readFile (path : string) : M (error + string) :=
  on_fs (CallReadFile path) (ReadFile fs path).

(** Lines 27-46. *)
Definition getVersion : M Z :=
  do currentVersionRow <- queryRowContext select_sql;
  match Scan currentVersionRow with
  | inr currentVersion => ret currentVersion
  | inl err =>
      match err with
      | PqError code_name _ =>
          if decide (code_name = "undefined_table") then
            do e <- execContext bootstrap_sql [];
            match e with
            | Some err' => fail err'
            | None => ret 0
            end
          else fail err
      | _ => fail err
      end
  end.

(** Lines 129-173.  The diagnostics of lines 130-132 and 145-159 only
    write to the process log and are left out. *)
Definition runFile (filename : string) (version : Z) : M unit :=
  do b <- readFile filename;
  match b with
  | inl err => fail err
  | inr bytes =>
      do t <- beginTx;
      match t with
      | inl err => fail err
      | inr tx =>
          do e1 <- execContext bytes [];
          match e1 with
          | Some err =>
              do _ <- rollback tx;
              fail (Executing filename err)
          | None =>
              do e2 <- execContext update_sql [version];
              match e2 with
              | Some err =>
                  do _ <- rollback tx;
                  fail err
              | None =>
                  do e3 <- commit tx;
                  match e3 with
                  | Some err => fail err
                  | None => ret tt
                  end
              end
          end
      end
  end.

(** Lines 113-117: [fuel] bounds the number of iterations. *)
Fixpoint upLoop (fuel : nat) (dir : string) (ms : MigrationSet)
    (idx targetVersion : Z) : M unit :=
  if idx <=? targetVersion then
    match fuel with
    | O => out_of_fuel
    | S fuel' =>
        do _ <- runFile (Join dir (at_key (upFiles ms) idx)) idx;
        upLoop fuel' dir ms (wrap (idx + 1)) targetVersion
    end
  else ret tt.

(** Lines 119-123. *)
Fixpoint downLoop (fuel : nat) (dir : string) (ms : MigrationSet)
    (idx targetVersion : Z) : M unit :=
  if idx >? targetVersion then
    match fuel with
    | O => out_of_fuel
    | S fuel' =>
        do _ <- runFile (Join dir (at_key (downFiles ms) idx))
                        (wrap (idx - 1));
        downLoop fuel' dir ms (wrap (idx - 1)) targetVersion
    end
  else ret tt.

(** Line 108-110. *)
Definition resolve (targetVersion : Z) (ms : MigrationSet) : Z :=
  if targetVersion =? -1 then maxMigration ms else targetVersion.

(** Lines 112-126. *)
Definition migrate (fuel : nat) (dir : string) (ms : MigrationSet)
    (currentVersion targetVersion : Z) : M unit :=
  if targetVersion >? currentVersion then
    upLoop fuel dir ms (wrap (currentVersion + 1)) targetVersion
  else if targetVersion <? currentVersion then
    downLoop fuel dir ms currentVersion targetVersion
  else ret tt.

(** Lines 48-127. *)
Definition MigrateDatabase (fuel : nat) (migrationsDir : string)
    (targetVersion : Z) : M unit :=
  do currentVersion <- getVersion;
  do migrateFiles <- readDir migrationsDir;
  match migrateFiles with
  | inl err => fail err
  | inr names =>
      match loadMigrations names with
      | inl err => fail err
      | inr ms =>
          migrate fuel migrationsDir ms currentVersion
                  (resolve targetVersion ms)
      end
  end.

End Engine.

(** ** [*sql.DB] on a PostgreSQL server *)

Section PoolModel.

(** The user's relations are left abstract; [apply] is the effect of a
    statement batch sent in one simple query: the server runs it
    atomically, so it either fails without effect or yields the new
    database. *)
Variable R : Type.

Record Database : Type := mkDb {
  tracking : option Z;   (* the row of [_migrate_], [None]: no such table *)
  relations : R
}.

Variable apply : string -> Database -> error + Database.

Definition set_tracking (v : option Z) (d : Database) : Database :=
  mkDb v (relations d).

Definition pg_exec (stmt : string * list Z) (d : Database)
  : error + Database :=
  let '(q, args) := stmt in
  if decide (q = bootstrap_sql) then
    match tracking d with
    | None => inr (set_tracking (Some 0) d)
    | Some _ => inl (PqError "duplicate_table" "relation _migrate_ already exists")
    end
  else if decide (q = update_sql) then
    match args, tracking d with
    | [v], Some _ => inr (set_tracking (Some v) d)
    | [_], None => inl (PqError "undefined_table" "relation _migrate_ does not exist")
    | _, _ => inl (PqError "protocol_violation" "wrong number of parameters")
    end
  else apply q d.

Definition pg_query (q : string) (d : Database) : error + Z :=
  if decide (q = select_sql) then
    match tracking d with
    | None => inl (PqError "undefined_table" "relation _migrate_ does not exist")
    | Some v => inr v
    end
  else inl (PqError "feature_not_supported" q).

Fixpoint replay (stmts : list (string * list Z)) (d : Database)
  : error + Database :=
  match stmts with
  | [] => inr d
  | stmt :: rest =>
      match pg_exec stmt d with
      | inl e => inl e
      | inr d' => replay rest d'
      end
  end.

(** The pool: the committed database, the statements each open
    transaction has buffered on its own connection, and the failures the
    network holds in store for the coming calls ([Some e]: the call fails
    with [e] before it reaches the server). *)
Record Pg : Type := mkPg {
  db : Database;
  txs : gmap nat (list (string * list Z));
  next_tx : nat;
  faults : list (option error)
}.

Definition ErrTxDone : error :=
  DriverError "sql: transaction has already been committed or rolled back".

Definition call {A} (on_fault : error -> A) (k : Pg -> A * Pg) (s : Pg)
  : A * Pg :=
  match faults s with
  | Some e :: rest => (on_fault e, mkPg (db s) (txs s) (next_tx s) rest)
  | None :: rest => k (mkPg (db s) (txs s) (next_tx s) rest)
  | [] => k s
  end.

(** [db.ExecContext]: on a free connection of the pool, committed at
    once. *)
Definition pool_exec (q : string) (args : list Z) : Pg -> option error * Pg :=
  call Some (fun s =>
    match pg_exec (q, args) (db s) with
    | inl e => (Some e, s)
    | inr d => (None, mkPg d (txs s) (next_tx s) (faults s))
    end).

Definition pool_query (q : string) : Pg -> (error + Z) * Pg :=
  call inl (fun s => (pg_query q (db s), s)).

Definition pool_begin : Pg -> (error + nat) * Pg :=
  call inl (fun s =>
    (inr (next_tx s),
     mkPg (db s) (<[next_tx s := []]> (txs s)) (S (next_tx s)) (faults s))).

(** [tx.ExecContext]: on the connection of the transaction; rejected
    statements leave the buffer as it was. *)
Definition pool_tx_exec (tx : nat) (q : string) (args : list Z)
  : Pg -> option error * Pg :=
  call Some (fun s =>
    match txs s !! tx with
    | None => (Some ErrTxDone, s)
    | Some buf =>
        match replay (buf ++ [(q, args)]) (db s) with
        | inl e => (Some e, s)
        | inr _ =>
            (None, mkPg (db s) (<[tx := buf ++ [(q, args)]]> (txs s))
                        (next_tx s) (faults s))
        end
    end).

Definition pool_commit (tx : nat) : Pg -> option error * Pg :=
  call Some (fun s =>
    match txs s !! tx with
    | None => (Some ErrTxDone, s)
    | Some buf =>
        match replay buf (db s) with
        | inl e => (Some e, mkPg (db s) (delete tx (txs s)) (next_tx s) (faults s))
        | inr d => (None, mkPg d (delete tx (txs s)) (next_tx s) (faults s))
        end
    end).

Definition pool_rollback (tx : nat) : Pg -> option error * Pg :=
  call Some (fun s =>
    match txs s !! tx with
    | None => (Some ErrTxDone, s)
    | Some _ => (None, mkPg (db s) (delete tx (txs s)) (next_tx s) (faults s))
    end).

#[export] Instance Pool : Queryer Pg := {|
  Tx := nat;
  ExecContext := pool_exec;
  QueryRowContext := pool_query;
  BeginTx := pool_begin;
  Commit := pool_commit;
  Rollback := pool_rollback;
  TxExecContext := pool_tx_exec
|}.

End PoolModel.

Arguments mkDb {R} _ _.
Arguments tracking {R} _.
Arguments relations {R} _.
Arguments set_tracking {R} _ _.
Arguments mkPg {R} _ _ _ _.
Arguments db {R} _.
Arguments txs {R} _.
Arguments next_tx {R} _.
Arguments faults {R} _.

(** ** The fixture of the repository's test *)

Module Fixture.

Definition s1u : string := "CREATE TABLE foo (id int);".
Definition s1d : string := "DROP TABLE foo;".
Definition s2u : string := "CREATE TABLE bar (id int);".
Definition s2d : string := "DROP TABLE bar".
Definition s3u : string := "CREATE TABLE baz (id int);".
Definition s3d : string := "DROP TABLE baz;".

(** The server on these six statements: the user relations are the list
    of table names. *)
Definition statements : list (string * (bool * string)) :=
  [ (s1u, (true, "foo")); (s1d, (false, "foo"));
    (s2u, (true, "bar")); (s2d, (false, "bar"));
    (s3u, (true, "baz")); (s3d, (false, "baz")) ].

Fixpoint find (q : string) (l : list (string * (bool * string)))
  : option (bool * string) :=
  match l with
  | [] => None
  | (q', a) :: rest => if decide (q = q') then Some a else find q rest
  end.

Definition apply (q : string) (d : Database (list string))
  : error + Database (list string) :=
  match find q statements with
  | Some (true, t) =>
      if decide (t ∈ relations d)
      then inl (PqError "duplicate_table" t)
      else inr (mkDb (tracking d) (relations d ++ [t]))
  | Some (false, t) =>
      if decide (t ∈ relations d)
      then inr (mkDb (tracking d) (filter (fun t' => t' ≠ t) (relations d)))
      else inl (PqError "undefined_table" t)
  | None => inl (PqError "syntax_error" q)
  end.

Definition dir : string := "migrations".

Definition files : gmap string node :=
  list_to_map
    [ (dir, Dir ["001-foo.down.sql"; "001-foo.up.sql";
                 "002-bar.down.sql"; "002-bar.up.sql";
                 "003-baz.down.sql"; "003-baz.up.sql"]);
      (Join dir "001-foo.up.sql", File s1u);
      (Join dir "001-foo.down.sql", File s1d);
      (Join dir "002-bar.up.sql", File s2u);
      (Join dir "002-bar.down.sql", File s2d);
      (Join dir "003-baz.up.sql", File s3u);
      (Join dir "003-baz.down.sql", File s3d) ].

(** A brand-new database behind a healthy pool. *)
Definition fresh : World (Pg (list string)) :=
  mkWorld (mkPg (mkDb None []) ∅ 0%nat []) [].

Definition run (fs : gmap string node) (target : Z)
    (w : World (Pg (list string))) :=
  MigrateDatabase (Q := Pool (list string) apply) fs 10 dir target w.

End Fixture.


(** * Properties *)

(** ** Go integers *)

Module GoIntFacts.

Lemma wrap_is_int z : is_int (wrap z).
Proof.
  unfold is_int, wrap, min_int, max_int.
  pose proof (Z.mod_pos_bound (z + 2 ^ 63) (2 ^ 64)). lia.
Qed.

Lemma wrap_id z : is_int z -> wrap z = z.
Proof.
  unfold is_int, wrap, min_int, max_int. intros Hz.
  rewrite Z.mod_small; lia.
Qed.

Lemma wrap_succ_max : wrap (max_int + 1) = min_int.
Proof. reflexivity. Qed.

Lemma int_of_uint64_small u : 0 <= u < 2 ^ 63 -> int_of_uint64 u = u.
Proof. intros Hu. apply wrap_id. unfold is_int, min_int, max_int. lia. Qed.

Lemma int_of_uint64_large u :
  2 ^ 63 <= u < 2 ^ 64 -> int_of_uint64 u = u - 2 ^ 64.
Proof.
  intros Hu. unfold int_of_uint64, wrap.
  replace (u + 2 ^ 63) with ((u - 2 ^ 63) + 1 * 2 ^ 64) by lia.
  rewrite Z.mod_add by lia. rewrite Z.mod_small; lia.
Qed.

End GoIntFacts.
Export GoIntFacts.

(** ** File names *)

Module NameFacts.

(** [c] occurs in [s]. *)
Fixpoint occurs (c : ascii) (s : string) : bool :=
  match s with
  | EmptyString => false
  | String x s' => Ascii.eqb x c || occurs c s'
  end.

Lemma Split_nonempty c s : Split c s ≠ [].
Proof. destruct s as [|x s]; simpl; [done|]. repeat case_match; done. Qed.

Lemma Split_free c s : occurs c s = false -> Split c s = [s].
Proof.
  induction s as [|x s IH]; simpl; [done|].
  intros [Hx Hs]%orb_false_iff. rewrite Hx, IH; done.
Qed.

Lemma Split_app c a b :
  occurs c a = false -> Split c (a +:+ String c b) = a :: Split c b.
Proof.
  induction a as [|x a IH]; simpl.
  - intros _. by rewrite Ascii.eqb_refl.
  - intros [Hx Ha]%orb_false_iff. rewrite Hx, IH; done.
Qed.

(** A split is undone by joining with the separator, and no segment
    holds the separator. *)
Lemma Split_cons c s seg segs :
  Split c s = seg :: segs ->
  occurs c seg = false /\
  match segs with
  | [] => s = seg
  | _ :: _ => exists rest, s = seg +:+ String c rest /\ Split c rest = segs
  end.
Proof.
  revert seg segs. induction s as [|x s IH]; simpl; intros seg segs Hs.
  - by simplify_eq.
  - destruct (Ascii.eqb_spec x c) as [->|Hne].
    + simplify_eq. split; [done|].
      pose proof (Split_nonempty c s) as Hn.
      destruct (Split c s) eqn:E; [done|]. exists s. done.
    + destruct (Split c s) as [|seg' segs'] eqn:E.
      { by destruct (Split_nonempty c s). }
      injection Hs as <- <-.
      destruct (IH _ _ eq_refl) as [Hfree Hrest]. simpl.
      apply Ascii.eqb_neq in Hne. rewrite Hne, Hfree. split; [done|].
      destruct segs' as [|s2 segs'']; [by subst|].
      destruct Hrest as (rest & -> & Hr). exists rest. done.
Qed.

(** "Exactly three dot-separated segments ending in the literal sql". *)
Definition migration_shape (name a d : string) : Prop :=
  name = a +:+ "." +:+ d +:+ ".sql" /\
  occurs "." a = false /\ occurs "." d = false.

Lemma Split_shape name a d :
  migration_shape name a d <-> Split "." name = [a; d; "sql"].
Proof.
  split.
  - intros (-> & Ha & Hd).
    change (a +:+ "." +:+ d +:+ ".sql")
      with (a +:+ String "." (d +:+ String "." "sql")).
    by rewrite !Split_app.
  - intros Hs.
    destruct (Split_cons _ _ _ _ Hs) as [Ha (r1 & -> & Hr1)].
    destruct (Split_cons _ _ _ _ Hr1) as [Hd (r2 & -> & Hr2)].
    destruct (Split_cons _ _ _ _ Hr2) as [_ ->].
    done.
Qed.

(** "Text up to the first -". *)
Definition number_segment (a n : string) : Prop :=
  occurs "-" n = false /\ (a = n \/ exists rest, a = n +:+ "-" +:+ rest).

Lemma Split_number a n :
  number_segment a n <-> hd "" (Split "-" a) = n.
Proof.
  split.
  - intros [Hn [->|[rest ->]]].
    + by rewrite Split_free.
    + change (n +:+ "-" +:+ rest) with (n +:+ String "-" rest).
      by rewrite Split_app.
  - intros Hs. destruct (Split "-" a) as [|seg segs] eqn:E.
    { by destruct (Split_nonempty "-" a). }
    simpl in Hs. subst seg.
    destruct (Split_cons _ _ _ _ E) as [Hn Hrest]. split; [done|].
    destruct segs; [by left|]. destruct Hrest as (rest & -> & _).
    right. by exists rest.
Qed.

End NameFacts.
Export NameFacts.

(** ** The loader *)

Module LoaderFacts.

Definition complete_at (ms : MigrationSet) (idx : Z) : Prop :=
  is_Some (upFiles ms !! idx) /\ is_Some (downFiles ms !! idx).

(** The error the completeness check owes to [idx]. *)
Definition missing_at (ms : MigrationSet) (idx : Z) (e : error) : Prop :=
  (e = MissingUp idx /\ upFiles ms !! idx = None) \/
  (e = MissingDown idx /\ is_Some (upFiles ms !! idx) /\
   downFiles ms !! idx = None).

Lemma checkFrom_None n idx ms :
  checkFrom n idx ms = None <->
  forall j, idx <= j < idx + Z.of_nat n -> complete_at ms j.
Proof.
  revert idx. induction n as [|n IH]; intros idx; simpl.
  - split; [intros _ j Hj; lia | done].
  - destruct (upFiles ms !! idx) as [u|] eqn:Hu.
    + destruct (downFiles ms !! idx) as [d|] eqn:Hd.
      * rewrite IH. split; intros H j Hj.
        -- destruct (decide (j = idx)) as [->|Hne].
           ++ split; eauto.
           ++ apply H. lia.
        -- apply H. lia.
      * split; [done|]. intros H.
        destruct (H idx ltac:(lia)) as [_ [x Hx]]. congruence.
    + split; [done|]. intros H.
      destruct (H idx ltac:(lia)) as [[x Hx] _]. congruence.
Qed.

Lemma checkFrom_Some n idx ms e :
  checkFrom n idx ms = Some e ->
  exists j, idx <= j < idx + Z.of_nat n /\
    (forall k, idx <= k < j -> complete_at ms k) /\ missing_at ms j e.
Proof.
  revert idx. induction n as [|n IH]; intros idx; simpl; [done|].
  destruct (upFiles ms !! idx) as [u|] eqn:Hu.
  - destruct (downFiles ms !! idx) as [d|] eqn:Hd.
    + intros (j & Hj & Hbefore & Hmiss)%IH. exists j.
      split; [lia|]. split; [|done]. intros k Hk.
      destruct (decide (k = idx)) as [->|Hne].
      * split; eauto.
      * apply Hbefore. lia.
    + intros [= <-]. exists idx. split; [lia|]. split; [intros; lia|].
      right. eauto.
  - intros [= <-]. exists idx. split; [lia|]. split; [intros; lia|].
    by left.
Qed.

(** The check reads the two maps on the [n] keys from [idx] on only. *)
Lemma checkFrom_ext n idx ms ms' :
  (forall j, idx <= j < idx + Z.of_nat n ->
     upFiles ms' !! j = upFiles ms !! j /\
     downFiles ms' !! j = downFiles ms !! j) ->
  checkFrom n idx ms' = checkFrom n idx ms.
Proof.
  revert idx. induction n as [|n IH]; intros idx H; simpl; [done|].
  destruct (H idx ltac:(lia)) as [-> ->].
  rewrite IH; [done|]. intros j Hj. apply H. lia.
Qed.

Lemma indexFiles_app names names' ms :
  indexFiles (names ++ names') ms =
  match indexFiles names ms with
  | inl e => inl e
  | inr ms' => indexFiles names' ms'
  end.
Proof.
  revert ms. induction names as [|name names IH]; intros ms; simpl; [done|].
  destruct (processFile name ms); [done|]. apply IH.
Qed.

Lemma processFile_shape name a d ms :
  migration_shape name a d ->
  processFile name ms =
    match ParseUint (hd "" (Split "-" a)) with
    | None => inl (InvalidFilename name)
    | Some u =>
        let number := int_of_uint64 u in
        let m := if maxMigration ms <? number then number
                 else maxMigration ms in
        if decide (d = "up") then
          inr (mkSet (<[number := name]> (upFiles ms)) (downFiles ms) m)
        else if decide (d = "down") then
          inr (mkSet (upFiles ms) (<[number := name]> (downFiles ms)) m)
        else inl (BadFilename name)
    end.
Proof.
  intros Hs%Split_shape. unfold processFile. rewrite Hs.
  by rewrite decide_True.
Qed.

Lemma processFile_skip name ms :
  (forall a d, ~ migration_shape name a d) -> processFile name ms = inr ms.
Proof.
  intros Hno. unfold processFile.
  destruct (Split "." name) as [|p0 [|p1 [|p2 [|p3 l]]]] eqn:E; try done.
  case_decide as Hsql; [|done]. subst p2.
  apply Split_shape in E. by destruct (Hno p0 p1).
Qed.

End LoaderFacts.
Export LoaderFacts.

(** C6. Every directory entry is classified by its name: a name that does
    not consist of exactly three dot-separated segments of which the last
    is [sql] is skipped without error (the set is unchanged and the loop
    goes on); a name of that shape whose number segment, the text up to
    the first [-], is rejected by [ParseUint] makes the loader return
    [InvalidFilename]; a name with a valid number and a direction other
    than [up] and [down] makes it return [BadFilename]. *)
Theorem C6_filename_classification (name : string) (rest : list string)
    (ms : MigrationSet) :
  ((forall a d, ~ migration_shape name a d) ->
     processFile name ms = inr ms /\
     indexFiles (name :: rest) ms = indexFiles rest ms) /\
  (forall a d n, migration_shape name a d -> number_segment a n ->
     (ParseUint n = None ->
        indexFiles (name :: rest) ms = inl (InvalidFilename name)) /\
     (forall u, ParseUint n = Some u -> d ≠ "up" -> d ≠ "down" ->
        indexFiles (name :: rest) ms = inl (BadFilename name))).
Proof.
  split.
  - intros Hno. simpl. by rewrite (processFile_skip _ _ Hno).
  - intros a d n Hshape Hn%Split_number. simpl.
    rewrite (processFile_shape _ _ _ _ Hshape), Hn. split.
    + by intros ->.
    + intros u -> Hup Hdown. simpl.
      by rewrite !decide_False.
Qed.

Lemma C6_filename_classification_witness :
  indexFiles ["README.md"; "001-foo.up.sql"] emptySet
    = indexFiles ["001-foo.up.sql"] emptySet /\
  indexFiles ["x1-foo.up.sql"; "001-foo.up.sql"] emptySet
    = inl (InvalidFilename "x1-foo.up.sql") /\
  indexFiles ["001-foo.sideways.sql"; "001-foo.up.sql"] emptySet
    = inl (BadFilename "001-foo.sideways.sql").
Proof.
  split; [|split].
  - apply (C6_filename_classification "README.md" ["001-foo.up.sql"] emptySet).
    intros a d Hs%Split_shape. vm_compute in Hs. discriminate.
  - apply (C6_filename_classification "x1-foo.up.sql" ["001-foo.up.sql"]
             emptySet) with (a := "x1-foo") (d := "up") (n := "x1").
    + apply Split_shape. reflexivity.
    + apply Split_number. reflexivity.
    + reflexivity.
  - apply (C6_filename_classification "001-foo.sideways.sql"
             ["001-foo.up.sql"] emptySet)
      with (a := "001-foo") (d := "sideways") (n := "001") (u := 1).
    + apply Split_shape. reflexivity.
    + apply Split_number. reflexivity.
    + reflexivity.
    + discriminate.
    + discriminate.
Defined.

(** C5. Validation checks completeness exactly over [1, maxNumber - 1]:
    it passes if and only if every number of that range has an up-file
    and a down-file; when it fails, the error is the one of the smallest
    incomplete number (its up-file before its down-file) and nothing
    after it is looked at; and the result does not depend on what the
    two maps hold outside the range, so that a missing down-file at
    [maxNumber] is no error. *)
Theorem C5_validate_range (ms : MigrationSet) :
  (validate ms = None <->
     forall idx, 1 <= idx < maxMigration ms -> complete_at ms idx) /\
  (forall e, validate ms = Some e ->
     exists idx, 1 <= idx < maxMigration ms /\
       (forall k, 1 <= k < idx -> complete_at ms k) /\ missing_at ms idx e) /\
  (forall up down,
     (forall idx, 1 <= idx < maxMigration ms ->
        up !! idx = upFiles ms !! idx /\ down !! idx = downFiles ms !! idx) ->
     validate (mkSet up down (maxMigration ms)) = validate ms) /\
  validate (mkSet (upFiles ms) (delete (maxMigration ms) (downFiles ms))
                  (maxMigration ms)) = validate ms.
Proof.
  unfold validate.
  assert (Hrange : forall j, 1 <= j < 1 + Z.of_nat (Z.to_nat (maxMigration ms - 1))
                             <-> 1 <= j < maxMigration ms) by (intros; lia).
  split; [|split; [|split]].
  - rewrite checkFrom_None. split; intros H j Hj; apply H, Hrange, Hj.
  - intros e (j & Hj & Hbefore & Hmiss)%checkFrom_Some.
    exists j. split; [by apply Hrange|]. done.
  - intros up down Hagree. simpl. apply checkFrom_ext. simpl.
    intros j Hj. by apply Hagree, Hrange.
  - simpl. apply checkFrom_ext. simpl. intros j Hj%Hrange.
    split; [done|]. apply lookup_delete_ne. lia.
Qed.

Lemma C5_validate_range_witness :
  let ms := mkSet (list_to_map [(1, "1.up.sql"); (2, "2.up.sql")])
                  (list_to_map [(1, "1.down.sql")]) 2 in
  validate ms = None /\
  validate (mkSet (upFiles ms) (downFiles ms) 3) = Some (MissingDown 2) /\
  validate (mkSet ∅ ∅ 2) = Some (MissingUp 1).
Proof.
  intros ms. split; [|split].
  - apply (proj2 (proj1 (C5_validate_range ms))). intros idx Hidx.
    assert (idx = 1) as -> by (simpl in Hidx; lia).
    split; eexists; reflexivity.
  - destruct (validate (mkSet (upFiles ms) (downFiles ms) 3)) as [e|] eqn:E.
    + destruct (proj1 (proj2 (C5_validate_range _)) e E)
        as (idx & Hidx & Hbefore & Hmiss).
      simpl in Hidx.
      assert (idx = 1 \/ idx = 2) as [->| ->] by lia.
      * destruct Hmiss as [[_ H]|[_ [_ H]]]; vm_compute in H; discriminate.
      * destruct Hmiss as [[_ H]|[-> _]]; [vm_compute in H; discriminate|done].
    + pose proof (proj1 (proj1 (C5_validate_range _)) E) as E'.
      destruct (E' 2 ltac:(simpl; lia)) as [_ [x Hx]].
      vm_compute in Hx. discriminate.
  - reflexivity.
Defined.

(** ** The engine over any connection *)

Section EngineFacts.

Context {C : Type} `{Q : Queryer C}.
Variable fs : gmap string node.

Implicit Types (w : World C) (ms : MigrationSet).

(** The world after one more call. *)
Definition logged (c : C) (l : list Call) w : World C := mkWorld c (calls w ++ l).

(** [getVersion], case by case. *)
Lemma getVersion_read w v c' :
  QueryRowContext select_sql (conn w) = (inr v, c') -> is_int v ->
  getVersion w = (Ok v, logged c' [CallQueryRow select_sql] w).
Proof.
  intros Hq Hv. unfold getVersion, bind, queryRowContext, on_conn.
  rewrite Hq. simpl. by rewrite decide_True.
Qed.

Lemma getVersion_error w row c' e :
  QueryRowContext select_sql (conn w) = (row, c') -> Scan row = inl e ->
  (forall m, e ≠ PqError "undefined_table" m) ->
  getVersion w = (Err e, logged c' [CallQueryRow select_sql] w).
Proof.
  intros Hq Hs Hne. unfold getVersion, bind, queryRowContext, on_conn.
  rewrite Hq, Hs. destruct e; try done.
  case_decide as Hc; [|done]. subst. by destruct (Hne message).
Qed.

Lemma getVersion_bootstrap w row c' m e c'' :
  QueryRowContext select_sql (conn w) = (row, c') ->
  Scan row = inl (PqError "undefined_table" m) ->
  ExecContext bootstrap_sql [] c' = (e, c'') ->
  getVersion w =
    (match e with Some err => Err err | None => Ok 0 end,
     logged c'' [CallQueryRow select_sql; CallExec bootstrap_sql []] w).
Proof.
  intros Hq Hs He. unfold getVersion, bind, queryRowContext, execContext, on_conn.
  rewrite Hq, Hs. rewrite decide_True by done. simpl. rewrite He.
  unfold logged. rewrite <- app_assoc. by destruct e.
Qed.

(** What a version read can leave in the log, and what it returns. *)
Lemma getVersion_calls w r w1 :
  getVersion w = (r, w1) ->
  r ≠ OutOfFuel /\
  (forall v, r = Ok v -> is_int v) /\
  (calls w1 = calls w ++ [CallQueryRow select_sql] \/
   calls w1 = calls w ++ [CallQueryRow select_sql; CallExec bootstrap_sql []]).
Proof.
  destruct (QueryRowContext select_sql (conn w)) as [row c'] eqn:Hq.
  destruct (Scan row) as [e|v] eqn:Hs.
  - assert ((exists m, e = PqError "undefined_table" m) \/
            (forall m, e ≠ PqError "undefined_table" m)) as [Hm|Hm].
    { destruct e as [code m| | | | | | |]; try (right; done).
      destruct (decide (code = "undefined_table")) as [->|Hne];
        [left; by exists m | right; congruence]. }
    + destruct Hm as [m ->].
      destruct (ExecContext bootstrap_sql [] c') as [e' c''] eqn:He.
      rewrite (getVersion_bootstrap _ _ _ _ _ _ Hq Hs He).
      intros [= <- <-]. split; [by destruct e'|]. split; [|by right].
      intros v Hv. destruct e'; simplify_eq. done.
    + rewrite (getVersion_error _ _ _ _ Hq Hs Hm).
      intros [= <- <-]. split; [done|]. split; [done|by left].
  - assert (row = inr v /\ is_int v) as [-> Hv].
    { unfold Scan in Hs. destruct row; [done|]. case_decide; naive_solver. }
    rewrite (getVersion_read _ _ _ Hq Hv). intros [= <- <-].
    split; [done|]. split; [naive_solver|by left].
Qed.

(** The paths through [getVersion]. *)
Inductive getVersion_outcome (c : C) : result Z -> C -> Prop :=
| gv_read row c' v :
    QueryRowContext select_sql c = (row, c') -> Scan row = inr v ->
    getVersion_outcome c (Ok v) c'
| gv_failed row c' e :
    QueryRowContext select_sql c = (row, c') -> Scan row = inl e ->
    (forall m, e ≠ PqError "undefined_table" m) ->
    getVersion_outcome c (Err e) c'
| gv_bootstrapped row c' m c'' :
    QueryRowContext select_sql c = (row, c') ->
    Scan row = inl (PqError "undefined_table" m) ->
    ExecContext bootstrap_sql [] c' = (None, c'') ->
    getVersion_outcome c (Ok 0) c''
| gv_bootstrap_failed row c' m e c'' :
    QueryRowContext select_sql c = (row, c') ->
    Scan row = inl (PqError "undefined_table" m) ->
    ExecContext bootstrap_sql [] c' = (Some e, c'') ->
    getVersion_outcome c (Err e) c''.

Lemma getVersion_paths w r w1 :
  getVersion w = (r, w1) -> getVersion_outcome (conn w) r (conn w1).
Proof.
  destruct (QueryRowContext select_sql (conn w)) as [row c'] eqn:Hq.
  destruct (Scan row) as [e|v] eqn:Hs.
  - assert ((exists m, e = PqError "undefined_table" m) \/
            (forall m, e ≠ PqError "undefined_table" m)) as [[m ->]|Hm].
    { destruct e as [code m| | | | | | |]; try (right; done).
      destruct (decide (code = "undefined_table")) as [->|Hne];
        [left; by exists m | right; congruence]. }
    + destruct (ExecContext bootstrap_sql [] c') as [e' c''] eqn:He.
      rewrite (getVersion_bootstrap _ _ _ _ _ _ Hq Hs He).
      intros [= <- <-]. simpl.
      destruct e'; [by eapply gv_bootstrap_failed | by eapply gv_bootstrapped].
    + rewrite (getVersion_error _ _ _ _ Hq Hs Hm).
      intros [= <- <-]. by eapply gv_failed.
  - assert (row = inr v /\ is_int v) as [-> Hv].
    { unfold Scan in Hs. destruct row; [done|]. case_decide; naive_solver. }
    rewrite (getVersion_read _ _ _ Hq Hv). intros [= <- <-].
    by eapply gv_read.
Qed.

(** [MigrateDatabase] once the version is read. *)
Lemma MigrateDatabase_read fuel dir target w cur w1 :
  getVersion w = (Ok cur, w1) ->
  MigrateDatabase fs fuel dir target w =
    let w2 := logged (conn w1) [CallReadDir dir] w1 in
    match ReadDir fs dir with
    | inl err => (Err err, w2)
    | inr names =>
        match loadMigrations names with
        | inl err => (Err err, w2)
        | inr ms => migrate fs fuel dir ms cur (resolve target ms) w2
        end
    end.
Proof.
  intros Hv. unfold MigrateDatabase, bind. rewrite Hv.
  unfold readDir, on_fs. simpl.
  destruct (ReadDir fs dir) as [err|names]; [done|].
  destruct (loadMigrations names); done.
Qed.

Lemma MigrateDatabase_unread fuel dir target w e w1 :
  getVersion w = (Err e, w1) ->
  MigrateDatabase fs fuel dir target w = (Err e, w1).
Proof. intros Hv. unfold MigrateDatabase, bind. by rewrite Hv. Qed.




Lemma runFile_unreadable f v w e :
  ReadFile fs f = inl e ->
  runFile fs f v w = (Err e, logged (conn w) [CallReadFile f] w).
Proof.
  intros Hf. unfold runFile, bind, readFile, on_fs. by rewrite Hf.
Qed.

Lemma runFile_returns f v w : fst (runFile fs f v w) ≠ OutOfFuel.
Proof.
  unfold runFile, bind, readFile, beginTx, execContext, commit, rollback,
    on_fs, on_conn, fail, ret.
  repeat (case_match; simplify_eq; simpl in * ); done.
Qed.

(** The calls of a step that went through. *)
Definition step_calls (step : string * Z) : list Call :=
  match ReadFile fs step.1 with
  | inr content =>
      [CallReadFile step.1; CallBegin; CallExec content [];
       CallExec update_sql [step.2]; CallCommit]
  | inl _ => [CallReadFile step.1]
  end.

Lemma runFile_ok f v w w' :
  runFile fs f v w = (Ok (), w') ->
  is_Some (fs !! f) /\ calls w' = calls w ++ step_calls (f, v).
Proof.
  unfold step_calls, runFile, bind, readFile, beginTx, execContext, commit,
    rollback, on_fs, on_conn, fail, ret. simpl.
  destruct (ReadFile fs f) as [e|content] eqn:Hf; [done|]. simpl.
  intros H. split.
  { unfold ReadFile in Hf. destruct (fs !! f); [done|]. done. }
  repeat (case_match; simplify_eq; simpl in * ).
  by rewrite <- !app_assoc.
Qed.

(** The paths through [runFile], as a relation between the connection
    before, the result and the connection after. *)
Inductive runFile_outcome (f : string) (v : Z) (c : C)
  : result () -> C -> Prop :=
| rf_unreadable e :
    ReadFile fs f = inl e ->
    runFile_outcome f v c (Err e) c
| rf_no_tx content e c1 :
    ReadFile fs f = inr content ->
    BeginTx c = (inl e, c1) ->
    runFile_outcome f v c (Err e) c1
| rf_batch_failed content tx c1 e c2 e' c3 :
    ReadFile fs f = inr content ->
    BeginTx c = (inr tx, c1) ->
    ExecContext content [] c1 = (Some e, c2) ->
    Rollback tx c2 = (e', c3) ->
    runFile_outcome f v c (Err (Executing f e)) c3
| rf_update_failed content tx c1 c2 e c3 e' c4 :
    ReadFile fs f = inr content ->
    BeginTx c = (inr tx, c1) ->
    ExecContext content [] c1 = (None, c2) ->
    ExecContext update_sql [v] c2 = (Some e, c3) ->
    Rollback tx c3 = (e', c4) ->
    runFile_outcome f v c (Err e) c4
| rf_commit_failed content tx c1 c2 c3 e c4 :
    ReadFile fs f = inr content ->
    BeginTx c = (inr tx, c1) ->
    ExecContext content [] c1 = (None, c2) ->
    ExecContext update_sql [v] c2 = (None, c3) ->
    Commit tx c3 = (Some e, c4) ->
    runFile_outcome f v c (Err e) c4
| rf_committed content tx c1 c2 c3 c4 :
    ReadFile fs f = inr content ->
    BeginTx c = (inr tx, c1) ->
    ExecContext content [] c1 = (None, c2) ->
    ExecContext update_sql [v] c2 = (None, c3) ->
    Commit tx c3 = (None, c4) ->
    runFile_outcome f v c (Ok ()) c4.

Lemma runFile_paths f v w r w' :
  runFile fs f v w = (r, w') -> runFile_outcome f v (conn w) r (conn w').
Proof.
  unfold runFile, bind, readFile, beginTx, execContext, commit, rollback,
    on_fs, on_conn, fail, ret. simpl.
  destruct (ReadFile fs f) as [e|content] eqn:Hf; simpl.
  { intros [= <- <-]. by apply rf_unreadable. }
  destruct (BeginTx (conn w)) as [[e|tx] c1] eqn:Hb; simpl.
  { intros [= <- <-]. by eapply rf_no_tx. }
  destruct (ExecContext content [] c1) as [[e|] c2] eqn:H1; simpl.
  { destruct (Rollback tx c2) as [e' c3] eqn:Hr. simpl.
    intros [= <- <-]. by eapply rf_batch_failed. }
  destruct (ExecContext update_sql [v] c2) as [[e|] c3] eqn:H2; simpl.
  { destruct (Rollback tx c3) as [e' c4] eqn:Hr. simpl.
    intros [= <- <-]. by eapply rf_update_failed. }
  destruct (Commit tx c3) as [[e|] c4] eqn:Hc; simpl;
    intros [= <- <-]; [by eapply rf_commit_failed | by eapply rf_committed].
Qed.

(** *** The step list of the specification (section 4.3, step 4) *)

(** Ascending pass: for idx from current+1 through target, the up-file of
    idx, then version idx. *)
Definition up_plan (dir : string) ms (cur tgt : Z) : list (string * Z) :=
  (fun idx => (Join dir (at_key (upFiles ms) idx), idx))
    <$> seqZ (cur + 1) (tgt - cur).

(** Descending pass: for idx from current down to target+1, the down-file
    of idx, then version idx - 1. *)
Definition down_plan (dir : string) ms (cur tgt : Z) : list (string * Z) :=
  (fun idx => (Join dir (at_key (downFiles ms) idx), idx - 1))
    <$> reverse (seqZ (tgt + 1) (cur - tgt)).

Definition plan (dir : string) ms (cur tgt : Z) : list (string * Z) :=
  if decide (cur < tgt) then up_plan dir ms cur tgt
  else down_plan dir ms cur tgt.

(** The steps one after the other, stopping at the first that fails. *)
Fixpoint run_plan (steps : list (string * Z)) w : result () * World C :=
  match steps with
  | [] => (Ok (), w)
  | (f, v) :: rest =>
      match runFile fs f v w with
      | (Ok _, w') => run_plan rest w'
      | (Err e, w') => (Err e, w')
      | (OutOfFuel, w') => (OutOfFuel, w')
      end
  end.

Lemma run_plan_app steps steps' w :
  run_plan (steps ++ steps') w =
  match run_plan steps w with
  | (Ok _, w') => run_plan steps' w'
  | other => other
  end.
Proof.
  revert w. induction steps as [|[f v] steps IH]; intros w; simpl; [done|].
  destruct (runFile fs f v w) as [[[]|e|] w']; auto.
Qed.

Lemma run_plan_ok steps w w' :
  run_plan steps w = (Ok (), w') ->
  calls w' = calls w ++ mjoin (step_calls <$> steps).
Proof.
  revert w. induction steps as [|[f v] steps IH]; intros w; simpl.
  - intros [= <-]. by rewrite app_nil_r.
  - destruct (runFile fs f v w) as [[[]|e|] w1] eqn:Hrun; try done.
    intros Hrest%IH. apply runFile_ok in Hrun as [_ Hrun].
    by rewrite Hrest, Hrun, <- app_assoc.
Qed.

Lemma run_plan_returns steps w : fst (run_plan steps w) ≠ OutOfFuel.
Proof.
  revert w. induction steps as [|[f v] steps IH]; intros w; simpl; [done|].
  pose proof (runFile_returns f v w) as Hr.
  destruct (runFile fs f v w) as [[[]|e|] w1]; simpl in *; auto.
Qed.

Lemma down_range_cons cur tgt :
  tgt < cur ->
  reverse (seqZ (tgt + 1) (cur - tgt))
  = cur :: reverse (seqZ (tgt + 1) (cur - 1 - tgt)).
Proof.
  intros Hlt. replace (cur - tgt) with ((cur - 1 - tgt) + 1) by lia.
  rewrite seqZ_app by lia.
  replace (tgt + 1 + (cur - 1 - tgt)) with cur by lia.
  change (seqZ cur 1) with [cur]. apply reverse_snoc.
Qed.

(** The two loops run the step lists. *)
Lemma upLoop_plan fuel dir ms idx tgt w :
  min_int <= idx -> tgt < max_int ->
  (Z.to_nat (tgt - idx + 1) <= fuel)%nat ->
  upLoop fs fuel dir ms idx tgt w = run_plan (up_plan dir ms (idx - 1) tgt) w.
Proof.
  unfold up_plan. replace (idx - 1 + 1) with idx by lia.
  replace (tgt - (idx - 1)) with (tgt - idx + 1) by lia.
  revert idx w. induction fuel as [|fuel IH]; intros idx w Hmin Hmax Hfuel.
  - simpl. destruct (Z.leb_spec idx tgt); [lia|].
    by rewrite seqZ_nil by lia.
  - simpl. destruct (Z.leb_spec idx tgt) as [Hle|Hgt].
    + rewrite seqZ_cons by lia. simpl. unfold bind.
      rewrite wrap_id by (unfold is_int, min_int, max_int in *; lia).
      destruct (runFile fs _ idx w) as [[[]|e|] w1]; try done.
      rewrite IH by lia. do 3 f_equal. lia.
    + by rewrite seqZ_nil by lia.
Qed.

Lemma downLoop_plan fuel dir ms idx tgt w :
  min_int <= tgt -> idx <= max_int ->
  (Z.to_nat (idx - tgt) <= fuel)%nat ->
  downLoop fs fuel dir ms idx tgt w = run_plan (down_plan dir ms idx tgt) w.
Proof.
  unfold down_plan.
  revert idx w. induction fuel as [|fuel IH]; intros idx w Hmin Hmax Hfuel.
  - simpl. destruct (Z.gtb_spec idx tgt); [lia|].
    by rewrite seqZ_nil by lia.
  - simpl. destruct (Z.gtb_spec idx tgt) as [Hgt|Hle].
    + rewrite down_range_cons by lia. simpl. unfold bind.
      rewrite wrap_id by (unfold is_int, min_int, max_int in *; lia).
      destruct (runFile fs _ (idx - 1) w) as [[[]|e|] w1]; try done.
      by rewrite IH by lia.
    + by rewrite seqZ_nil by lia.
Qed.

Lemma migrate_plan fuel dir ms cur tgt w :
  is_int cur -> is_int tgt -> tgt < max_int ->
  (Z.abs_nat (tgt - cur) <= fuel)%nat ->
  migrate fs fuel dir ms cur tgt w = run_plan (plan dir ms cur tgt) w.
Proof.
  unfold is_int, migrate, plan, min_int, max_int.
  intros Hcur Htgt Hmax Hfuel.
  destruct (Z.gtb_spec tgt cur) as [Hup|Hnot].
  - rewrite decide_True by lia.
    rewrite wrap_id by (unfold is_int, min_int, max_int; lia).
    rewrite upLoop_plan by (unfold min_int, max_int; lia).
    do 2 f_equal. lia.
  - rewrite decide_False by lia.
    destruct (Z.ltb_spec tgt cur) as [Hdown|Heq].
    + by rewrite downLoop_plan by (unfold min_int, max_int; lia).
    + unfold down_plan. by rewrite seqZ_nil by lia.
Qed.

(** With the largest [int] as target the condition of the ascending loop
    always holds: the loop does not end in success. *)
Lemma upLoop_max_int fuel dir ms idx w :
  is_int idx -> fst (upLoop fs fuel dir ms idx max_int w) ≠ Ok ().
Proof.
  revert idx w. induction fuel as [|fuel IH]; intros idx w Hidx; simpl;
    (destruct (Z.leb_spec idx max_int); [|unfold is_int in Hidx; lia]);
    [done|].
  unfold bind. destruct (runFile fs _ idx w) as [[[]|e|] w1]; try done.
  apply IH, wrap_is_int.
Qed.

(** A run that did not exhaust its fuel is the run of the step list. *)
Lemma upLoop_plan_fueled fuel dir ms idx tgt w :
  min_int <= idx -> tgt < max_int ->
  fst (upLoop fs fuel dir ms idx tgt w) ≠ OutOfFuel ->
  upLoop fs fuel dir ms idx tgt w = run_plan (up_plan dir ms (idx - 1) tgt) w.
Proof.
  unfold up_plan. replace (idx - 1 + 1) with idx by lia.
  replace (tgt - (idx - 1)) with (tgt - idx + 1) by lia.
  revert idx w. induction fuel as [|fuel IH]; intros idx w Hmin Hmax; simpl;
    destruct (Z.leb_spec idx tgt) as [Hle|Hgt];
    try (by rewrite seqZ_nil by lia); [done|].
  rewrite seqZ_cons by lia. simpl. unfold bind.
  rewrite wrap_id by (unfold is_int, min_int, max_int in *; lia).
  destruct (runFile fs _ idx w) as [[[]|e|] w1]; try done.
  intros Hfuel. rewrite IH by (done || lia). do 3 f_equal. lia.
Qed.

Lemma downLoop_plan_fueled fuel dir ms idx tgt w :
  min_int <= tgt -> idx <= max_int ->
  fst (downLoop fs fuel dir ms idx tgt w) ≠ OutOfFuel ->
  downLoop fs fuel dir ms idx tgt w = run_plan (down_plan dir ms idx tgt) w.
Proof.
  unfold down_plan.
  revert idx w. induction fuel as [|fuel IH]; intros idx w Hmin Hmax; simpl;
    destruct (Z.gtb_spec idx tgt) as [Hgt|Hle];
    try (by rewrite seqZ_nil by lia); [done|].
  rewrite down_range_cons by lia. simpl. unfold bind.
  rewrite wrap_id by (unfold is_int, min_int, max_int in *; lia).
  destruct (runFile fs _ (idx - 1) w) as [[[]|e|] w1]; try done.
  intros Hfuel. by rewrite IH by (done || lia).
Qed.

Lemma migrate_plan_fueled fuel dir ms cur tgt w :
  is_int cur -> is_int tgt -> tgt < max_int ->
  fst (migrate fs fuel dir ms cur tgt w) ≠ OutOfFuel ->
  migrate fs fuel dir ms cur tgt w = run_plan (plan dir ms cur tgt) w.
Proof.
  unfold is_int, migrate, plan, min_int, max_int.
  intros Hcur Htgt Hmax.
  destruct (Z.gtb_spec tgt cur) as [Hup|Hnot].
  - rewrite decide_True by lia.
    rewrite wrap_id by (unfold is_int, min_int, max_int; lia).
    intros Hfuel.
    rewrite upLoop_plan_fueled by (done || unfold min_int, max_int; lia).
    do 2 f_equal. lia.
  - rewrite decide_False by lia.
    destruct (Z.ltb_spec tgt cur) as [Hdown|Heq].
    + intros Hfuel.
      by rewrite downLoop_plan_fueled by (done || unfold min_int, max_int; lia).
    + unfold down_plan. by rewrite seqZ_nil by lia.
Qed.

(** A successful pass is the successful run of its step list. *)
Lemma migrate_ok fuel dir ms cur tgt w w' :
  is_int cur -> is_int tgt ->
  migrate fs fuel dir ms cur tgt w = (Ok (), w') ->
  run_plan (plan dir ms cur tgt) w = (Ok (), w').
Proof.
  intros Hcur Htgt Hrun.
  destruct (decide (tgt < max_int)) as [Hmax|Hmax].
  - rewrite <- Hrun. symmetry. apply migrate_plan_fueled; try done.
    by rewrite Hrun.
  - assert (tgt = max_int) as -> by (unfold is_int in Htgt; lia).
    unfold migrate in Hrun.
    destruct (Z.gtb_spec max_int cur) as [Hup|Hnot].
    + pose proof (upLoop_max_int fuel dir ms (wrap (cur + 1)) w
                    (wrap_is_int _)) as Hno.
      by rewrite Hrun in Hno.
    + destruct (Z.ltb_spec max_int cur) as [Hdown|Heq].
      { unfold is_int in Hcur. lia. }
      assert (cur = max_int) as -> by (unfold is_int in Hcur; lia).
      unfold plan, down_plan. rewrite decide_False by lia.
      by rewrite seqZ_nil by lia.
Qed.

(** *** What the loader guarantees *)

Definition loaded ms : Prop :=
  0 <= maxMigration ms <= max_int /\
  forall k name,
    upFiles ms !! k = Some name \/ downFiles ms !! k = Some name ->
    k <= maxMigration ms /\ name ≠ "".

Lemma processFile_loaded name ms ms' :
  processFile name ms = inr ms' -> loaded ms -> loaded ms'.
Proof.
  unfold processFile. intros Hp [Hmax Hkeys].
  destruct (Split "." name) as [|p0 [|p1 [|p2 [|p3 l]]]] eqn:Hsplit;
    try (by simplify_eq).
  assert (name ≠ "") as Hname by (intros ->; vm_compute in Hsplit; done).
  case_decide; [|by simplify_eq].
  destruct (ParseUint _) as [u|]; [|done].
  pose proof (wrap_is_int u) as Hu. unfold is_int in Hu.
  fold (int_of_uint64 u) in Hu.
  assert (Hnew : forall m, m = (if maxMigration ms <? int_of_uint64 u
                                then int_of_uint64 u else maxMigration ms) ->
                 0 <= m <= max_int /\ maxMigration ms <= m /\ int_of_uint64 u <= m).
  { intros m ->. destruct (Z.ltb_spec (maxMigration ms) (int_of_uint64 u)); lia. }
  destruct (Hnew _ eq_refl) as (Hm & Hold & Hnum).
  repeat case_decide; simplify_eq; (split; [done|]); simpl;
    intros k nm [Hk|Hk];
    try (apply lookup_insert_Some in Hk as [[<- <-]|[_ Hk]]; [done|]);
    (destruct (Hkeys k nm ltac:(eauto)) as [Hk1 Hk2]; split; [lia|done]).
Qed.

Lemma indexFiles_loaded names ms ms' :
  indexFiles names ms = inr ms' -> loaded ms -> loaded ms'.
Proof.
  revert ms. induction names as [|name names IH]; intros ms; simpl.
  - by intros [= ->].
  - destruct (processFile name ms) as [e|ms1] eqn:Hp; [done|].
    intros Hrest Hms. eapply IH; [done|]. by eapply processFile_loaded.
Qed.

Lemma loadMigrations_loaded names ms :
  loadMigrations names = inr ms -> loaded ms /\ validate ms = None.
Proof.
  unfold loadMigrations.
  destruct (indexFiles names emptySet) as [e|ms1] eqn:Hi; [done|].
  destruct (validate ms1) eqn:Hval; [done|]. intros [= <-]. split; [|done].
  eapply indexFiles_loaded; [done|]. split; [vm_compute; split; congruence|].
  intros k name [Hk|Hk]; simpl in Hk; by rewrite lookup_empty in Hk.
Qed.

Lemma resolve_is_int target ms :
  is_int target -> loaded ms -> is_int (resolve target ms).
Proof.
  intros Ht [Hmax _]. unfold resolve. case_match; [|done].
  unfold is_int, min_int in *. lia.
Qed.

(** C2. With the version read as [cur] and the target resolved to [tgt]:
    given fuel for [|tgt - cur|] iterations the run is the execution, one
    after the other and stopping at the first failure, of the step list
    of the specification, which for [tgt > cur] is the up-files of
    cur+1, ..., tgt in ascending order, each followed by the version
    update to its own index, and for [tgt < cur] the down-files of
    cur, ..., tgt+1 in descending order, each followed by the version
    update to its index minus one; and the calls of a run that returns
    success are, after the version read and the directory listing,
    exactly those of these steps in this order. *)
Theorem C2_step_sequence fuel dir target w cur w1 names ms :
  getVersion w = (Ok cur, w1) ->
  ReadDir fs dir = inr names ->
  loadMigrations names = inr ms ->
  is_int target ->
  let tgt := resolve target ms in
  let w2 := logged (conn w1) [CallReadDir dir] w1 in
  (cur < tgt ->
     plan dir ms cur tgt =
       (fun idx => (Join dir (at_key (upFiles ms) idx), idx))
         <$> seqZ (cur + 1) (tgt - cur)) /\
  (tgt < cur ->
     plan dir ms cur tgt =
       (fun idx => (Join dir (at_key (downFiles ms) idx), idx - 1))
         <$> reverse (seqZ (tgt + 1) (cur - tgt))) /\
  (tgt < max_int -> (Z.abs_nat (tgt - cur) <= fuel)%nat ->
     MigrateDatabase fs fuel dir target w = run_plan (plan dir ms cur tgt) w2) /\
  (forall w', MigrateDatabase fs fuel dir target w = (Ok (), w') ->
     run_plan (plan dir ms cur tgt) w2 = (Ok (), w') /\
     calls w' = calls w2 ++ mjoin (step_calls <$> plan dir ms cur tgt)).
Proof.
  intros Hv Hdir Hload Htarget tgt w2.
  destruct (loadMigrations_loaded _ _ Hload) as [Hms _].
  destruct (getVersion_calls _ _ _ Hv) as (_ & Hcur & _).
  specialize (Hcur cur eq_refl).
  pose proof (resolve_is_int _ _ Htarget Hms) as Htgt. fold tgt in Htgt.
  rewrite (MigrateDatabase_read _ _ _ _ _ _ Hv), Hdir, Hload. simpl.
  fold tgt w2. split; [|split; [|split]].
  - intros Hup. unfold plan. by rewrite decide_True.
  - intros Hdown. unfold plan. by rewrite decide_False by lia.
  - intros Hmax Hfuel. by apply migrate_plan.
  - intros w' Hrun%migrate_ok; [|done..]. split; [done|].
    exact (run_plan_ok _ _ _ Hrun).
Qed.

Lemma down_plan_split dir ms cur j tgt :
  tgt <= j <= cur ->
  down_plan dir ms cur tgt = down_plan dir ms cur j ++ down_plan dir ms j tgt.
Proof.
  intros Hj. unfold down_plan. rewrite <- fmap_app, <- reverse_app.
  do 2 f_equal.
  replace (cur - tgt) with ((j - tgt) + (cur - j)) by lia.
  rewrite seqZ_app by lia. do 2 f_equal. lia.
Qed.

Lemma down_plan_cons dir ms cur tgt :
  tgt < cur ->
  down_plan dir ms cur tgt =
  (Join dir (at_key (downFiles ms) cur), cur - 1)
    :: down_plan dir ms (cur - 1) tgt.
Proof.
  intros Hlt. unfold down_plan. by rewrite down_range_cons.
Qed.

Lemma ReadFile_directory dir names :
  ReadDir fs dir = inr names -> ReadFile fs dir = inl (PathError "read" dir).
Proof.
  unfold ReadDir, ReadFile. destruct (fs !! dir) as [[c|l]|]; done.
Qed.

(** C10 (as amended). A target below -1 is neither taken for the
    sentinel nor rejected.  When it is below the version read, the run is
    the descending pass over cur, cur-1, ..., target+1, each index being
    looked up in the down-file map like any other; at the first index
    [j] that has no down-file the run fails with the error of reading
    the directory path as a file, not with a validation error, provided
    the steps above [j] went through; and when every step goes through,
    the run returns success. *)
Theorem C10_below_sentinel fuel dir target w cur w1 names ms :
  getVersion w = (Ok cur, w1) ->
  ReadDir fs dir = inr names ->
  loadMigrations names = inr ms ->
  is_int target -> target < -1 -> target < cur ->
  (Z.to_nat (cur - target) <= fuel)%nat ->
  let w2 := logged (conn w1) [CallReadDir dir] w1 in
  resolve target ms = target /\
  MigrateDatabase fs fuel dir target w
    = run_plan (down_plan dir ms cur target) w2 /\
  (forall j w3, target < j <= cur -> downFiles ms !! j = None ->
     run_plan (down_plan dir ms cur j) w2 = (Ok (), w3) ->
     MigrateDatabase fs fuel dir target w
       = (Err (PathError "read" dir), logged (conn w3) [CallReadFile dir] w3) /\
     is_validation_error (PathError "read" dir) = false) /\
  (forall w', run_plan (down_plan dir ms cur target) w2 = (Ok (), w') ->
     MigrateDatabase fs fuel dir target w = (Ok (), w')).
Proof.
  intros Hv Hdir Hload Htarget Hlow Hlt Hfuel w2.
  destruct (getVersion_calls _ _ _ Hv) as (_ & Hcur & _).
  specialize (Hcur cur eq_refl).
  assert (Hres : resolve target ms = target).
  { unfold resolve. destruct (Z.eqb_spec target (-1)); [lia|done]. }
  assert (Hrun : MigrateDatabase fs fuel dir target w
                 = run_plan (down_plan dir ms cur target) w2).
  { rewrite (MigrateDatabase_read _ _ _ _ _ _ Hv), Hdir, Hload. simpl.
    rewrite Hres. fold w2. unfold migrate.
    destruct (Z.gtb_spec target cur); [lia|].
    destruct (Z.ltb_spec target cur); [|lia].
    apply downLoop_plan; unfold is_int in *; lia. }
  split; [done|]. split; [done|]. split.
  - intros j w3 Hj Hnone Habove. split; [|done].
    rewrite Hrun, (down_plan_split dir ms cur j target) by lia.
    rewrite run_plan_app, Habove.
    rewrite (down_plan_cons dir ms j target) by lia. simpl.
    unfold at_key. rewrite Hnone. simpl.
    change (Join dir "") with dir.
    by rewrite (runFile_unreadable _ _ _ _ (ReadFile_directory _ _ Hdir)).
  - intros w' Hok. by rewrite Hrun.
Qed.

Lemma MigrateDatabase_ok_inv fuel dir target w w' :
  MigrateDatabase fs fuel dir target w = (Ok (), w') ->
  exists cur w1 names ms,
    getVersion w = (Ok cur, w1) /\
    ReadDir fs dir = inr names /\
    loadMigrations names = inr ms /\
    migrate fs fuel dir ms cur (resolve target ms)
            (logged (conn w1) [CallReadDir dir] w1) = (Ok (), w').
Proof.
  destruct (getVersion w) as [[cur|e|] w1] eqn:Hv.
  - rewrite (MigrateDatabase_read _ _ _ _ _ _ Hv). simpl.
    destruct (ReadDir fs dir) as [e|names]; [done|].
    destruct (loadMigrations names) as [e|ms] eqn:Hload; [done|].
    intros Hrun. by exists cur, w1, names, ms.
  - by rewrite (MigrateDatabase_unread _ _ _ _ _ _ Hv).
  - by destruct (getVersion_calls _ _ _ Hv) as (? & _).
Qed.

(** The version of the last step of the list. *)
Lemma plan_last dir ms cur tgt :
  cur ≠ tgt -> snd <$> last (plan dir ms cur tgt) = Some tgt.
Proof.
  intros Hne. unfold plan, up_plan, down_plan.
  case_decide as Hlt; rewrite fmap_last, <- option_fmap_compose.
  - replace (tgt - cur) with (Z.of_nat (S (Z.to_nat (tgt - cur - 1)))) by lia.
    rewrite seqZ_S, last_snoc. simpl. f_equal. lia.
  - rewrite last_reverse, seqZ_cons by lia. simpl. f_equal. lia.
Qed.

Lemma plan_idle dir ms cur : plan dir ms cur cur = [].
Proof.
  unfold plan, down_plan. rewrite decide_False by lia.
  by rewrite seqZ_nil by lia.
Qed.

Lemma migrate_idle fuel dir ms cur w :
  migrate fs fuel dir ms cur cur w = (Ok (), w).
Proof.
  unfold migrate. destruct (Z.gtb_spec cur cur); [lia|].
  destruct (Z.ltb_spec cur cur); [lia|done].
Qed.

Lemma run_plan_ok_read steps w w' :
  run_plan steps w = (Ok (), w') ->
  Forall (fun step => exists content, ReadFile fs step.1 = inr content) steps.
Proof.
  revert w. induction steps as [|[f v] steps IH]; intros w; simpl; [done|].
  destruct (runFile fs f v w) as [[[]|e|] w1] eqn:Hrun; try done.
  intros Hrest%IH. apply Forall_cons. split; [|done]. simpl.
  apply runFile_paths in Hrun. inversion Hrun; eauto.
Qed.

End EngineFacts.

(** ** The engine on a [*sql.DB] pool *)

Section PoolFacts.

Variable R : Type.
Variable apply : string -> Database R -> error + Database R.
Variable fs : gmap string node.

Implicit Types (w : World (Pg R)) (s : Pg R) (d : Database R).

Local Abbreviation getVersionP := (getVersion (Q := Pool R apply)).
Local Abbreviation runFileP := (runFile (Q := Pool R apply) fs).
Local Abbreviation run_planP := (run_plan (Q := Pool R apply) fs).
Local Abbreviation MigrateDatabaseP := (MigrateDatabase (Q := Pool R apply) fs).

(** What each call on the pool does to the committed database. *)
Lemma pool_exec_inv q args s e s' :
  pool_exec R apply q args s = (e, s') ->
  txs s' = txs s /\ next_tx s' = next_tx s /\
  (faults s = [] -> faults s' = []) /\
  match e with
  | None => pg_exec R apply (q, args) (db s) = inr (db s')
  | Some err =>
      db s' = db s /\
      (faults s = [] -> pg_exec R apply (q, args) (db s) = inl err)
  end.
Proof.
  unfold pool_exec, call. intros H.
  repeat (case_match; simplify_eq; simpl in * ); done.
Qed.

Lemma pool_query_inv q s row s' :
  pool_query R q s = (row, s') ->
  db s' = db s /\ txs s' = txs s /\ next_tx s' = next_tx s /\
  (faults s = [] -> faults s' = [] /\ row = pg_query R q (db s)) /\
  (forall v, row = inr v -> row = pg_query R q (db s)).
Proof.
  unfold pool_query, call. intros H.
  repeat (case_match; simplify_eq; simpl in * ); done.
Qed.

Lemma pool_begin_inv s r s' :
  pool_begin R s = (r, s') ->
  db s' = db s /\
  (faults s = [] -> faults s' = [] /\ exists tx, r = inr tx) /\
  forall tx, r = inr tx -> txs s' !! tx = Some [].
Proof.
  unfold pool_begin, call. intros H.
  repeat (case_match; simplify_eq; simpl in * ); repeat split; try done;
    intros; simplify_eq; rewrite ?lookup_insert_eq; eauto.
Qed.

Lemma pool_commit_inv tx s e s' :
  pool_commit R apply tx s = (e, s') ->
  txs s !! tx = Some [] ->
  db s' = db s /\ (faults s = [] -> faults s' = [] /\ e = None).
Proof.
  unfold pool_commit, call. intros H Htx.
  repeat (case_match; simplify_eq; simpl in * ); simplify_eq; done.
Qed.

Lemma pool_rollback_inv tx s e s' :
  pool_rollback R tx s = (e, s') ->
  db s' = db s /\ (faults s = [] -> faults s' = []).
Proof.
  unfold pool_rollback, call. intros H.
  repeat (case_match; simplify_eq; simpl in * ); done.
Qed.

Lemma pg_exec_update v d d' :
  pg_exec R apply (update_sql, [v]) d = inr d' ->
  d' = set_tracking (Some v) d /\ is_Some (tracking d).
Proof.
  unfold pg_exec. rewrite decide_False by done. rewrite decide_True by done.
  destruct (tracking d); naive_solver.
Qed.

(** A step that went through has stored its version, and its effect on
    the database is that of the batch followed by the update. *)
Lemma runFile_pool_ok f v w w' :
  runFileP f v w = (Ok (), w') ->
  exists content d,
    ReadFile fs f = inr content /\
    pg_exec R apply (content, []) (db (conn w)) = inr d /\
    db (conn w') = set_tracking (Some v) d.
Proof.
  intros Hrun%runFile_paths. inversion Hrun as [| | | | |content tx c1 c2 c3 c4 Hf Hb H1 H2 Hc]; subst.
  simpl in *.
  apply pool_begin_inv in Hb as (Hdb1 & _ & Htx). specialize (Htx _ eq_refl).
  apply pool_exec_inv in H1 as (Htx1 & _ & _ & He1).
  apply pool_exec_inv in H2 as (Htx2 & _ & _ & He2).
  apply pool_commit_inv in Hc as [Hdb4 _]; [|by rewrite Htx2, Htx1].
  apply pg_exec_update in He2 as [He2 _].
  exists content, (db c2). rewrite <- Hdb1. split; [done|]. split; [done|].
  by rewrite Hdb4.
Qed.

Lemma pg_exec_bootstrap d d' :
  pg_exec R apply (bootstrap_sql, []) d = inr d' ->
  tracking d = None /\ d' = set_tracking (Some 0) d.
Proof.
  unfold pg_exec. rewrite decide_True by done.
  destruct (tracking d); naive_solver.
Qed.

Lemma Scan_inr row v : Scan row = inr v -> row = inr v /\ is_int v.
Proof.
  unfold Scan. destruct row; [done|]. case_decide; naive_solver.
Qed.

Lemma pg_query_select d v :
  pg_query R select_sql d = inr v <-> tracking d = Some v.
Proof.
  unfold pg_query. rewrite decide_True by done.
  destruct (tracking d); naive_solver.
Qed.

(** A version read that succeeds returns the stored version: the one it
    found, or the 0 it has just stored. *)
Lemma getVersion_pool_ok w cur w1 :
  getVersionP w = (Ok cur, w1) ->
  is_int cur /\
  tracking (db (conn w1)) = Some cur /\
  relations (db (conn w1)) = relations (db (conn w)) /\
  (is_Some (tracking (db (conn w))) -> db (conn w1) = db (conn w)) /\
  (faults (conn w) = [] -> faults (conn w1) = []).
Proof.
  intros Hv. destruct (getVersion_calls _ _ _ Hv) as (_ & Hint & _).
  split; [by apply Hint|].
  apply getVersion_paths in Hv.
  inversion Hv as [row c' v Hq Hs | | row c' m c'' Hq Hs He |]; subst;
    simpl in *.
  - apply Scan_inr in Hs as [-> _].
    apply pool_query_inv in Hq as (Hdb & _ & _ & Hf & Hrow).
    specialize (Hrow _ eq_refl). symmetry in Hrow.
    apply pg_query_select in Hrow. rewrite Hdb.
    split; [done|]. split; [done|]. split; [done|]. naive_solver.
  - apply pool_query_inv in Hq as (Hdb & _ & _ & Hf & _).
    apply pool_exec_inv in He as (_ & _ & Hf' & He).
    apply pg_exec_bootstrap in He as [Hnone ->]. rewrite Hdb in *.
    split; [done|]. split; [done|]. split.
    + intros [v Hsome]. congruence.
    + naive_solver.
Qed.

(** When the tracking table exists, a version read leaves the database
    alone and can only return its row. *)
Lemma getVersion_pool_present w v r w1 :
  tracking (db (conn w)) = Some v ->
  getVersionP w = (r, w1) ->
  db (conn w1) = db (conn w) /\ (forall cur, r = Ok cur -> cur = v).
Proof.
  intros Htr Hv.
  destruct r as [cur| |].
  - destruct (getVersion_pool_ok _ _ _ Hv) as (_ & Hcur & _ & Hdb & _).
    rewrite Hdb in * by eauto. split; [done|]. intros ? [= <-]. congruence.
  - split; [|done]. apply getVersion_paths in Hv.
    inversion Hv as [|row c' e' Hq Hs Hne| |row c' m e' c'' Hq Hs He]; subst;
      simpl in *.
    + by apply pool_query_inv in Hq as (Hdb & _).
    + apply pool_query_inv in Hq as (Hdb & _).
      apply pool_exec_inv in He as (_ & _ & _ & He & _). congruence.
  - by destruct (getVersion_calls _ _ _ Hv) as (? & _).
Qed.

Lemma call_healthy {A} (on_fault : error -> A) (k : Pg R -> A * Pg R) s :
  faults s = [] -> call R on_fault k s = k s.
Proof. unfold call. by intros ->. Qed.

Lemma getVersion_pool_stored w v :
  faults (conn w) = [] -> tracking (db (conn w)) = Some v -> is_int v ->
  getVersionP w = (Ok v, logged (conn w) [CallQueryRow select_sql] w).
Proof.
  intros Hf Htr Hv. apply getVersion_read; [|done]. simpl.
  unfold pool_query. rewrite call_healthy by done.
  by rewrite (proj2 (pg_query_select _ _) Htr).
Qed.

Lemma getVersion_pool_fresh w :
  faults (conn w) = [] -> tracking (db (conn w)) = None ->
  getVersionP w =
    (Ok 0,
     logged (mkPg (set_tracking (Some 0) (db (conn w))) (txs (conn w))
                  (next_tx (conn w)) [])
            [CallQueryRow select_sql; CallExec bootstrap_sql []] w).
Proof.
  intros Hf Htr.
  eapply (getVersion_bootstrap (Q := Pool R apply) w _ _ _ None).
  - simpl. unfold pool_query. rewrite call_healthy by done. reflexivity.
  - unfold pg_query. rewrite decide_True by done. rewrite Htr. reflexivity.
  - simpl. unfold pool_exec. rewrite call_healthy by done.
    unfold pg_exec. rewrite decide_True by done. rewrite Htr, Hf. done.
Qed.

(** C7. On a healthy pool whose database has no tracking table, reading
    the version creates the table with the single row 0 and returns 0
    without error; the read that follows returns 0 again, this time from
    the row, without executing anything.  And over any connection, a
    read error that is not the server's "undefined_table" (an error of
    another class, or a value that does not scan as an [int]) is returned
    as it is, after the query alone: no bootstrap is attempted. *)
Theorem C7_version_bootstrap :
  (forall w,
     faults (conn w) = [] -> tracking (db (conn w)) = None ->
     exists w1,
       getVersionP w = (Ok 0, w1) /\
       db (conn w1) = mkDb (Some 0) (relations (db (conn w))) /\
       calls w1 = calls w ++ [CallQueryRow select_sql;
                              CallExec bootstrap_sql []] /\
       getVersionP w1 = (Ok 0, logged (conn w1) [CallQueryRow select_sql] w1)) /\
  (forall (C : Type) (Q : Queryer C) (w : World C) row c' e,
     QueryRowContext select_sql (conn w) = (row, c') ->
     Scan row = inl e ->
     (forall m, e ≠ PqError "undefined_table" m) ->
     getVersion w = (Err e, logged c' [CallQueryRow select_sql] w)).
Proof.
  split.
  - intros w Hf Htr. eexists. split; [by apply getVersion_pool_fresh|].
    split; [done|]. split; [done|].
    by apply getVersion_pool_stored.
  - intros C Q w row c' e. apply getVersion_error.
Qed.

Lemma run_plan_pool_ok steps w w' :
  run_planP steps w = (Ok (), w') ->
  tracking (db (conn w')) =
    match last steps with
    | Some (_, v) => Some v
    | None => tracking (db (conn w))
    end.
Proof.
  revert w. induction steps as [|[f v] steps IH]; intros w; simpl.
  - by intros [= <-].
  - destruct (runFileP f v w) as [[[]|e|] w1] eqn:Hrun; try done.
    intros Hrest%IH. rewrite Hrest, last_cons.
    apply runFile_pool_ok in Hrun as (content & d & _ & _ & ->).
    by destruct (last steps) as [[f' v']|].
Qed.

(** A run that returns success has stored the resolved target. *)
Lemma MigrateDatabase_pool_ok fuel dir target w w' :
  is_int target ->
  MigrateDatabaseP fuel dir target w = (Ok (), w') ->
  exists cur w1 names ms,
    getVersionP w = (Ok cur, w1) /\
    ReadDir fs dir = inr names /\ loadMigrations names = inr ms /\
    run_planP (plan dir ms cur (resolve target ms))
              (logged (conn w1) [CallReadDir dir] w1) = (Ok (), w') /\
    tracking (db (conn w')) = Some (resolve target ms).
Proof.
  intros Htarget (cur & w1 & names & ms & Hv & Hdir & Hload & Hrun)%MigrateDatabase_ok_inv.
  exists cur, w1, names, ms. do 3 (split; [done|]).
  destruct (loadMigrations_loaded _ _ Hload) as [Hms _].
  destruct (getVersion_pool_ok _ _ _ Hv) as (Hcur & Htr & _).
  apply migrate_ok in Hrun; [|done|by apply resolve_is_int].
  split; [done|].
  rewrite (run_plan_pool_ok _ _ _ Hrun).
  destruct (decide (cur = resolve target ms)) as [<-|Hne].
  - by rewrite plan_idle.
  - pose proof (plan_last dir ms cur _ Hne) as Hlast.
    destruct (last _) as [[f v]|]; simplify_eq/=. done.
Qed.

(** *** Runs on a healthy pool *)

(** No batch drops the tracking table. *)
Definition keeps_tracking : Prop :=
  forall q d d',
    apply q d = inr d' -> is_Some (tracking d) -> is_Some (tracking d').

Lemma pg_exec_keeps content d d' :
  keeps_tracking ->
  pg_exec R apply (content, []) d = inr d' ->
  is_Some (tracking d) -> is_Some (tracking d').
Proof.
  intros Hkeep. unfold pg_exec.
  repeat case_decide; [| |by apply Hkeep].
  - intros Hexec [v Hv]. by rewrite Hv in Hexec.
  - by destruct (tracking d).
Qed.

Lemma runFile_pool_healthy f v content w r w' :
  keeps_tracking ->
  faults (conn w) = [] -> is_Some (tracking (db (conn w))) ->
  ReadFile fs f = inr content ->
  runFileP f v w = (r, w') ->
  faults (conn w') = [] /\
  ((r = Ok () /\ tracking (db (conn w')) = Some v) \/
   (exists e, r = Err (Executing f e) /\ db (conn w') = db (conn w))).
Proof.
  intros Hkeep Hf Htr Hfile Hrun%runFile_paths.
  inversion Hrun as
    [ e Hf0
    | content0 e c1 Hf0 Hb
    | content0 tx c1 e c2 e' c3 Hf0 Hb H1 Hr
    | content0 tx c1 c2 e c3 e' c4 Hf0 Hb H1 H2 Hr
    | content0 tx c1 c2 c3 e c4 Hf0 Hb H1 H2 Hc
    | content0 tx c1 c2 c3 c4 Hf0 Hb H1 H2 Hc ]; subst; simpl in *;
    try congruence;
    apply pool_begin_inv in Hb as (Hdb1 & Hh1 & Htx);
    destruct (Hh1 Hf) as [Hf1 [tx' Htx']]; simplify_eq;
    specialize (Htx _ eq_refl).
  - apply pool_exec_inv in H1 as (_ & _ & Hh2 & Hdb2 & _).
    apply pool_rollback_inv in Hr as (Hdb3 & Hh3).
    split; [auto|]. right. exists e. split; [done|]. congruence.
  - apply pool_exec_inv in H1 as (Htx1 & _ & Hh2 & He1).
    apply pool_exec_inv in H2 as (_ & _ & Hh3 & _ & He2).
    rewrite Hdb1 in He1.
    pose proof (pg_exec_keeps _ _ _ Hkeep He1 Htr) as [v' Hv'].
    specialize (He2 (Hh2 Hf1)). unfold pg_exec in He2.
    rewrite decide_False, decide_True, Hv' in He2 by done. done.
  - apply pool_exec_inv in H1 as (Htx1 & _ & Hh2 & He1).
    apply pool_exec_inv in H2 as (Htx2 & _ & Hh3 & He2).
    apply pool_commit_inv in Hc as [_ Hh4]; [|by rewrite Htx2, Htx1].
    by destruct (Hh4 (Hh3 (Hh2 Hf1))).
  - apply pool_exec_inv in H1 as (Htx1 & _ & Hh2 & He1).
    apply pool_exec_inv in H2 as (Htx2 & _ & Hh3 & He2).
    apply pool_commit_inv in Hc as [Hdb4 Hh4]; [|by rewrite Htx2, Htx1].
    destruct (Hh4 (Hh3 (Hh2 Hf1))) as [Hf4 _]. split; [done|]. left.
    split; [done|]. apply pg_exec_update in He2 as [He2 _].
    by rewrite Hdb4, He2.
Qed.

(** The stored version lies between 0 and [hi]. *)
Definition version_within (hi : Z) w : Prop :=
  exists v, tracking (db (conn w)) = Some v /\ 0 <= v <= hi.

Definition step_ready (hi : Z) (step : string * Z) : Prop :=
  (exists content, ReadFile fs step.1 = inr content) /\ 0 <= step.2 <= hi.

Lemma run_plan_pool_healthy hi steps w :
  keeps_tracking ->
  faults (conn w) = [] -> version_within hi w ->
  Forall (step_ready hi) steps ->
  exists r w',
    run_planP steps w = (r, w') /\
    faults (conn w') = [] /\ version_within hi w' /\
    (r = Ok () \/ exists f e, r = Err (Executing f e)).
Proof.
  intros Hkeep. revert w.
  induction steps as [|[f v] steps IH]; intros w Hf Hver Hsteps; simpl.
  - exists (Ok ()), w. auto.
  - apply Forall_cons in Hsteps as [[[content Hfile] Hv] Hsteps].
    simpl in *.
    destruct (runFileP f v w) as [r w1] eqn:Hrun.
    assert (is_Some (tracking (db (conn w)))) as Htr.
    { destruct Hver as (v0 & -> & _). eauto. }
    destruct (runFile_pool_healthy _ _ _ _ _ _ Hkeep Hf Htr Hfile Hrun)
      as [Hf1 [[-> Hv1]|[e [-> Hdb]]]].
    + apply IH; [done| |done]. by exists v.
    + exists (Err (Executing f e)), w1. split; [done|]. split; [done|].
      split; [|eauto]. unfold version_within. by rewrite Hdb.
Qed.

(** Every up- and down-file from 1 to [maxMigration] is there to read. *)
Definition readable (dir : string) (m : gmap Z string) (idx : Z) : Prop :=
  exists name content,
    m !! idx = Some name /\ ReadFile fs (Join dir name) = inr content.

Definition all_readable (dir : string) (ms : MigrationSet) : Prop :=
  forall idx, 1 <= idx <= maxMigration ms ->
    readable dir (upFiles ms) idx /\ readable dir (downFiles ms) idx.

Lemma plan_ready dir ms cur tgt :
  all_readable dir ms ->
  0 <= cur <= maxMigration ms -> 0 <= tgt <= maxMigration ms ->
  Forall (step_ready (maxMigration ms)) (plan dir ms cur tgt).
Proof.
  intros Hall Hcur Htgt. unfold plan, up_plan, down_plan.
  case_decide; rewrite Forall_fmap; [|apply Forall_reverse];
    apply Forall_seqZ; intros idx Hidx; unfold step_ready; simpl.
  - destruct (Hall idx ltac:(lia)) as [(name & content & Hname & Hfile) _].
    unfold at_key. rewrite Hname. simpl. split; [eauto|lia].
  - destruct (Hall idx ltac:(lia)) as [_ (name & content & Hname & Hfile)].
    unfold at_key. rewrite Hname. simpl. split; [eauto|lia].
Qed.

(** One run on a healthy pool: it returns, with success and the target
    stored unless a batch failed. *)
Lemma MigrateDatabase_pool_healthy fuel dir target w names ms :
  keeps_tracking ->
  ReadDir fs dir = inr names -> loadMigrations names = inr ms ->
  all_readable dir ms ->
  0 <= target <= maxMigration ms -> maxMigration ms < max_int ->
  (Z.to_nat (maxMigration ms) <= fuel)%nat ->
  faults (conn w) = [] ->
  tracking (db (conn w)) = None \/ version_within (maxMigration ms) w ->
  exists r w',
    MigrateDatabaseP fuel dir target w = (r, w') /\
    faults (conn w') = [] /\ version_within (maxMigration ms) w' /\
    ((r = Ok () /\ tracking (db (conn w')) = Some target) \/
     exists f e, r = Err (Executing f e)).
Proof.
  intros Hkeep Hdir Hload Hall Htarget Hmax Hfuel Hf Hstart.
  destruct (loadMigrations_loaded _ _ Hload) as [[Hms _] _].
  assert (exists cur w1, getVersionP w = (Ok cur, w1) /\
            faults (conn w1) = [] /\ 0 <= cur <= maxMigration ms /\
            tracking (db (conn w1)) = Some cur) as (cur & w1 & Hv & Hf1 & Hcur & Htr1).
  { destruct Hstart as [Hnone|(v0 & Hsome & Hv0)].
    - eexists 0, _. split; [by apply getVersion_pool_fresh|]. simpl.
      split; [done|]. split; [lia|done].
    - eexists v0, _. split.
      + apply getVersion_pool_stored; [done..|].
        unfold is_int, min_int. lia.
      + done. }
  assert (Hres : resolve target ms = target).
  { unfold resolve. destruct (Z.eqb_spec target (-1)); [lia|done]. }
  rewrite (MigrateDatabase_read _ _ _ _ _ _ _ Hv), Hdir, Hload. simpl.
  rewrite Hres.
  rewrite migrate_plan; [|unfold is_int, min_int; lia..].
  set (w2 := logged (conn w1) [CallReadDir dir] w1).
  destruct (run_plan_pool_healthy (maxMigration ms)
              (plan dir ms cur target) w2 Hkeep)
    as (r & w' & Hrun & Hf' & Hver' & Hr); [done|by exists cur|by apply plan_ready|].
  exists r, w'. split; [done|]. split; [done|]. split; [done|].
  destruct Hr as [->|Herr]; [left|by right]. split; [done|].
  rewrite (run_plan_pool_ok _ _ _ Hrun).
  destruct (decide (cur = target)) as [<-|Hne].
  - by rewrite plan_idle.
  - pose proof (plan_last dir ms cur _ Hne) as Hlast.
    destruct (last _) as [[f v]|]; simplify_eq/=. done.
Qed.

(** C3. A run that returns success leaves the persisted version equal
    to the resolved target, which is the largest discovered number when
    the target given is -1 and the target itself otherwise.  And for T1
    and T2 in [0, maxNumber], on a healthy pool whose stored version is
    in that range (or whose tracking table is still to be created), with
    every up- and down-file of 1..maxNumber there to read and fuel for
    maxNumber iterations: migrating to T1 and then to T2 returns, and
    unless the batch of some file fails both runs succeed and the
    persisted version is T2. *)
Theorem C3_version_is_target :
  (forall fuel dir target w w',
     is_int target ->
     MigrateDatabaseP fuel dir target w = (Ok (), w') ->
     exists names ms,
       ReadDir fs dir = inr names /\ loadMigrations names = inr ms /\
       tracking (db (conn w')) = Some (resolve target ms) /\
       (target = -1 -> resolve target ms = maxMigration ms) /\
       (target ≠ -1 -> resolve target ms = target)) /\
  (forall fuel dir names ms T1 T2 w,
     keeps_tracking ->
     ReadDir fs dir = inr names -> loadMigrations names = inr ms ->
     all_readable dir ms ->
     0 <= T1 <= maxMigration ms -> 0 <= T2 <= maxMigration ms ->
     maxMigration ms < max_int ->
     (Z.to_nat (maxMigration ms) <= fuel)%nat ->
     faults (conn w) = [] ->
     tracking (db (conn w)) = None \/ version_within (maxMigration ms) w ->
     exists r1 w1 r2 w2,
       MigrateDatabaseP fuel dir T1 w = (r1, w1) /\
       MigrateDatabaseP fuel dir T2 w1 = (r2, w2) /\
       ((forall f e, r1 ≠ Err (Executing f e)) ->
        (forall f e, r2 ≠ Err (Executing f e)) ->
        r1 = Ok () /\ r2 = Ok () /\ tracking (db (conn w2)) = Some T2)).
Proof.
  split.
  - intros fuel dir target w w' Htarget Hrun.
    destruct (MigrateDatabase_pool_ok _ _ _ _ _ Htarget Hrun)
      as (cur & w1 & names & ms & _ & Hdir & Hload & _ & Htr).
    exists names, ms. do 3 (split; [done|]). unfold resolve.
    split; [by intros ->|]. intros Hne.
    by destruct (Z.eqb_spec target (-1)).
  - intros fuel dir names ms T1 T2 w Hkeep Hdir Hload Hall HT1 HT2 Hmax
      Hfuel Hf Hstart.
    destruct (MigrateDatabase_pool_healthy fuel dir T1 w names ms)
      as (r1 & w1 & Hrun1 & Hf1 & Hver1 & Hr1); try done.
    destruct (MigrateDatabase_pool_healthy fuel dir T2 w1 names ms)
      as (r2 & w2 & Hrun2 & Hf2 & Hver2 & Hr2); try done; [by right|].
    exists r1, w1, r2, w2. do 2 (split; [done|]). intros Hno1 Hno2.
    destruct Hr1 as [[-> _]|(f & e & ->)]; [|by destruct (Hno1 f e)].
    destruct Hr2 as [[-> Htr]|(f & e & ->)]; [|by destruct (Hno2 f e)].
    done.
Qed.

Lemma getVersion_pool_absent w cur w1 :
  tracking (db (conn w)) = None ->
  getVersionP w = (Ok cur, w1) -> cur = 0.
Proof.
  intros Hnone Hv%getVersion_paths.
  inversion Hv as [row c' v Hq Hs | | |]; subst; simpl in *; [|done].
  apply Scan_inr in Hs as [-> _].
  apply pool_query_inv in Hq as (_ & _ & _ & _ & Hrow).
  specialize (Hrow _ eq_refl). symmetry in Hrow.
  apply pg_query_select in Hrow. congruence.
Qed.

(** C9 (as amended). A successful run whose target is -1 or not
    negative, started on a database whose persisted version lies in
    [0, maxNumber] or whose tracking table does not exist yet, leaves the
    persisted version in [0, maxNumber]. *)
Theorem C9_version_stays_in_range fuel dir target w w' names ms :
  ReadDir fs dir = inr names -> loadMigrations names = inr ms ->
  is_int target -> -1 <= target ->
  tracking (db (conn w)) = None \/ version_within (maxMigration ms) w ->
  MigrateDatabaseP fuel dir target w = (Ok (), w') ->
  version_within (maxMigration ms) w'.
Proof.
  intros Hdir Hload Htarget Hlow Hstart Hrun.
  destruct (MigrateDatabase_pool_ok _ _ _ _ _ Htarget Hrun)
    as (cur & w1 & names' & ms' & Hv & Hdir' & Hload' & Hplan & Htr).
  rewrite Hdir in Hdir'. injection Hdir' as <-.
  rewrite Hload in Hload'. injection Hload' as <-.
  destruct (loadMigrations_loaded _ _ Hload) as [[Hmax Hkeys] _].
  assert (0 <= cur <= maxMigration ms) as Hcur.
  { destruct Hstart as [Hnone|(v0 & Hsome & Hv0)].
    - rewrite (getVersion_pool_absent _ _ _ Hnone Hv). lia.
    - destruct (getVersion_pool_present _ _ _ _ Hsome Hv) as [_ Heq].
      by rewrite (Heq cur eq_refl). }
  exists (resolve target ms). split; [done|].
  assert (Hres : resolve target ms = maxMigration ms \/
                 (resolve target ms = target /\ 0 <= target)).
  { unfold resolve. destruct (Z.eqb_spec target (-1)); [by left|right; lia]. }
  destruct (decide (cur < resolve target ms)) as [Hup|Hdown]; [|lia].
  split; [lia|].
  apply run_plan_ok_read in Hplan.
  unfold plan in Hplan. rewrite decide_True in Hplan by done.
  unfold up_plan in Hplan. rewrite Forall_fmap, Forall_seqZ in Hplan.
  destruct (Hplan (resolve target ms) ltac:(lia)) as [content Hfile].
  simpl in Hfile. unfold at_key in Hfile.
  destruct (upFiles ms !! resolve target ms) as [name|] eqn:Hname.
  - by destruct (Hkeys _ _ (or_introl Hname)).
  - simpl in Hfile. change (Join dir "") with dir in Hfile.
    by rewrite (ReadFile_directory _ _ _ Hdir) in Hfile.
Qed.

(** C8. When the resolved target equals the version read, the run
    returns success and does nothing more than read the version and list
    the directory: the connection is as the version read left it.  Hence,
    on the pool, a run to T that follows a successful run to T leaves the
    database as it is and executes no step: it opens no transaction,
    reads no migration file, and on a healthy pool consists of the
    version query and the directory listing and returns success. *)
Theorem C8_noop_at_target :
  (forall (C : Type) (Q : Queryer C) (fs' : gmap string node) fuel dir
          target (w w1 : World C) cur names ms,
     getVersion w = (Ok cur, w1) ->
     ReadDir fs' dir = inr names -> loadMigrations names = inr ms ->
     resolve target ms = cur ->
     MigrateDatabase fs' fuel dir target w
       = (Ok (), logged (conn w1) [CallReadDir dir] w1)) /\
  (forall fuel fuel' dir T w w1 r w2,
     is_int T ->
     MigrateDatabaseP fuel dir T w = (Ok (), w1) ->
     MigrateDatabaseP fuel' dir T w1 = (r, w2) ->
     db (conn w2) = db (conn w1) /\
     exists l,
       calls w2 = calls w1 ++ l /\
       (CallBegin ∉ l) /\ (forall p, CallReadFile p ∉ l) /\
       (forall q args, CallExec q args ∈ l -> q = bootstrap_sql) /\
       (faults (conn w1) = [] ->
          r = Ok () /\ l = [CallQueryRow select_sql; CallReadDir dir])).
Proof.
  split.
  - intros C Q fs' fuel dir target w w1 cur names ms Hv Hdir Hload Hres.
    rewrite (MigrateDatabase_read _ _ _ _ _ _ _ Hv), Hdir, Hload. simpl.
    rewrite Hres. apply migrate_idle.
  - intros fuel fuel' dir T w w1 r w2 HT Hrun1 Hrun2.
    destruct (MigrateDatabase_pool_ok _ _ _ _ _ HT Hrun1)
      as (cur & w0 & names & ms & _ & Hdir & Hload & _ & Htr).
    set (tgt := resolve T ms) in *.
    destruct (loadMigrations_loaded _ _ Hload) as [Hms _].
    pose proof (resolve_is_int _ _ HT Hms) as Hint.
    destruct (getVersionP w1) as [rv wv] eqn:Hv.
    destruct (getVersion_pool_present _ _ _ _ Htr Hv) as [Hdb Hcur].
    destruct (getVersion_calls _ _ _ Hv) as (Hfuel & _ & Hcalls).
    destruct rv as [cur'|e|]; [| |done].
    + rewrite (Hcur cur' eq_refl) in Hv.
      rewrite (MigrateDatabase_read _ _ _ _ _ _ _ Hv), Hdir, Hload in Hrun2.
      simpl in Hrun2. rewrite migrate_idle in Hrun2.
      injection Hrun2 as <- <-. simpl. split; [done|].
      destruct Hcalls as [Hc|Hc]; rewrite Hc, <- app_assoc; simpl;
        eexists; (split; [reflexivity|]);
        (repeat split; intros; rewrite ?elem_of_cons, ?elem_of_nil in *;
         try naive_solver).
      all: rewrite (getVersion_pool_stored w1 _ H Htr Hint) in Hv;
        injection Hv as <-; simpl in Hc;
        apply app_inv_head in Hc; try done.
    + rewrite (MigrateDatabase_unread _ _ _ _ _ _ _ Hv) in Hrun2.
      injection Hrun2 as <- <-. split; [done|].
      destruct Hcalls as [Hc|Hc]; rewrite Hc;
        eexists; (split; [reflexivity|]);
        (repeat split; intros; rewrite ?elem_of_cons, ?elem_of_nil in *;
         try naive_solver).
      all: by rewrite (getVersion_pool_stored w1 _ H Htr Hint) in Hv.
Qed.

End PoolFacts.

(** ** The step of the specification: statements sent on the transaction *)

Section StepInTransaction.

Context {C : Type} `{Q : Queryer C}.
Variable fs : gmap string node.

(** Section 4.3, step 5, word for word: read the file, begin, execute its
    content and the version update inside the transaction, commit; roll
    back when a statement fails.  It differs from [runFile] in the handle
    the two statements are sent on. *)
Definition runFile_in_tx (filename : string) (version : Z)
  : World C -> result () * World C :=
  bind (readFile fs filename) (fun b =>
  match b with
  | inl err => fail err
  | inr bytes =>
      bind beginTx (fun t =>
      match t with
      | inl err => fail err
      | inr tx =>
          bind (txExecContext tx bytes []) (fun e1 =>
          match e1 with
          | Some err =>
              bind (rollback tx) (fun _ => fail (Executing filename err))
          | None =>
              bind (txExecContext tx update_sql [version]) (fun e2 =>
              match e2 with
              | Some err => bind (rollback tx) (fun _ => fail err)
              | None =>
                  bind (commit tx) (fun e3 =>
                  match e3 with
                  | Some err => fail err
                  | None => ret ()
                  end)
              end)
          end)
      end)
  end).

End StepInTransaction.

Section PoolAtomicity.

Variable R : Type.
Variable apply : string -> Database R -> error + Database R.
Variable fs : gmap string node.

Lemma pool_tx_exec_db tx q args (s : Pg R) e s' :
  pool_tx_exec R apply tx q args s = (e, s') -> db s' = db s.
Proof.
  unfold pool_tx_exec, call. intros H.
  repeat (case_match; simplify_eq; simpl in * ); simplify_eq; done.
Qed.

Lemma pool_commit_db tx (s : Pg R) e s' :
  pool_commit R apply tx s = (e, s') -> e ≠ None -> db s' = db s.
Proof.
  unfold pool_commit, call. intros H.
  repeat (case_match; simplify_eq; simpl in * ); simplify_eq; done.
Qed.

(** On the pool the step of the specification is all or nothing: when it
    does not return success, the committed database is untouched. *)
Lemma runFile_in_tx_atomic f v (w : World (Pg R)) r w' :
  runFile_in_tx (Q := Pool R apply) fs f v w = (r, w') ->
  r ≠ Ok () -> db (conn w') = db (conn w).
Proof.
  unfold runFile_in_tx, bind, readFile, beginTx, txExecContext, commit,
    rollback, on_fs, on_conn, fail, ret. simpl.
  destruct (ReadFile fs f) as [e|content]; simpl.
  { by intros [= <- <-]. }
  destruct (pool_begin R (conn w)) as [[e|tx] c1] eqn:Hb; simpl;
    apply pool_begin_inv in Hb as (Hdb1 & _).
  { by intros [= <- <-]. }
  destruct (pool_tx_exec R apply tx content [] c1) as [[e|] c2] eqn:H1;
    simpl; apply pool_tx_exec_db in H1.
  { destruct (pool_rollback R tx c2) as [e' c3] eqn:Hr. simpl.
    apply pool_rollback_inv in Hr as [Hdb3 _].
    intros [= <- <-] _. simpl. congruence. }
  destruct (pool_tx_exec R apply tx update_sql [v] c2) as [[e|] c3] eqn:H2;
    simpl; apply pool_tx_exec_db in H2.
  { destruct (pool_rollback R tx c3) as [e' c4] eqn:Hr. simpl.
    apply pool_rollback_inv in Hr as [Hdb4 _].
    intros [= <- <-] _. simpl. congruence. }
  destruct (pool_commit R apply tx c3) as [[e|] c4] eqn:Hc; simpl.
  - apply pool_commit_db in Hc; [|done]. intros [= <- <-] _. simpl. congruence.
  - by intros [= <- <-].
Qed.

End PoolAtomicity.

(** ** Runs on the fixture *)

Module Scenario.

Import Fixture.

Abbreviation pool := (Pool (list string) Fixture.apply).

Definition names : list string :=
  ["001-foo.down.sql"; "001-foo.up.sql"; "002-bar.down.sql"; "002-bar.up.sql";
   "003-baz.down.sql"; "003-baz.up.sql"].

(** The set the loader builds from the fixture. *)
Definition ms : MigrationSet :=
  mkSet (list_to_map [(1, "001-foo.up.sql"); (2, "002-bar.up.sql");
                      (3, "003-baz.up.sql")])
        (list_to_map [(1, "001-foo.down.sql"); (2, "002-bar.down.sql");
                      (3, "003-baz.down.sql")])
        3.

Lemma names_listed : ReadDir files dir = inr names.
Proof. reflexivity. Qed.

Lemma ms_loaded : loadMigrations names = inr ms.
Proof. vm_compute. reflexivity. Qed.

(** A pool on a database at [version] with the tables [tables], and the
    failures [net] in store. *)
Definition at_version (version : Z) (tables : list string)
    (net : list (option error)) : World (Pg (list string)) :=
  mkWorld (mkPg (mkDb (Some version) tables) ∅ 0%nat net) [].

Definition bad_connection : error := DriverError "driver: bad connection".

End Scenario.

(** C1 (the code departs from the claim). The command-line entry point
    passes a [*sql.DB]; [runFile] opens a transaction on it and then
    sends the batch and the version update on the pool itself, so both
    are committed on their own and the rollback undoes nothing.  Here the
    version update of the step to version 1 fails on the network: the run
    returns the error after rolling the transaction back, and yet table
    foo exists while the persisted version is still 0.  Sent on the
    transaction, the same step leaves the database untouched. *)
Theorem C1_step_not_atomic :
  let w := Scenario.at_version 0 []
             [None; None; None; Some Scenario.bad_connection] in
  let r := MigrateDatabase (Q := Scenario.pool) Fixture.files 10
             Fixture.dir 1 w in
  let w0 := Scenario.at_version 0 []
              [None; None; Some Scenario.bad_connection] in
  let step := runFile_in_tx (Q := Scenario.pool) Fixture.files
                "migrations/001-foo.up.sql" 1 w0 in
  fst r = Err Scenario.bad_connection /\
  db (conn (snd r)) = mkDb (Some 0) ["foo"] /\
  calls (snd r) =
    [CallQueryRow select_sql; CallReadDir "migrations";
     CallReadFile "migrations/001-foo.up.sql"; CallBegin;
     CallExec Fixture.s1u []; CallExec update_sql [1]; CallRollback] /\
  fst step = Err Scenario.bad_connection /\
  db (conn (snd step)) = mkDb (Some 0) [].
Proof. vm_compute. repeat split. Qed.

Module ScenarioFacts.

Import Fixture Scenario.

Lemma apply_keeps_tracking : keeps_tracking (list string) Fixture.apply.
Proof.
  intros q d d' Happly Htr. unfold Fixture.apply in Happly.
  repeat case_match; simplify_eq; done.
Qed.

Lemma files_readable : all_readable files dir ms.
Proof.
  intros idx Hidx. simpl in Hidx.
  assert (idx = 1 \/ idx = 2 \/ idx = 3) as [->|[->| ->]] by lia;
    split; eexists _, _; split; reflexivity.
Qed.

Lemma two_is_int : is_int 2.
Proof. vm_compute. split; discriminate. Qed.

End ScenarioFacts.

Lemma C2_step_sequence_witness :
  calls (snd (MigrateDatabase (Q := Scenario.pool) Fixture.files 10
                Fixture.dir 2 Fixture.fresh)) =
  [CallQueryRow select_sql; CallExec bootstrap_sql [];
   CallReadDir "migrations";
   CallReadFile "migrations/001-foo.up.sql"; CallBegin;
   CallExec Fixture.s1u []; CallExec update_sql [1]; CallCommit;
   CallReadFile "migrations/002-bar.up.sql"; CallBegin;
   CallExec Fixture.s2u []; CallExec update_sql [2]; CallCommit].
Proof.
  pose proof (C2_step_sequence (Q := Scenario.pool) Fixture.files 10
                Fixture.dir 2 Fixture.fresh 0
                (snd (getVersion (Q := Scenario.pool) Fixture.fresh))
                Scenario.names Scenario.ms
                ltac:(vm_compute; reflexivity)
                Scenario.names_listed Scenario.ms_loaded
                ScenarioFacts.two_is_int) as (_ & _ & _ & Hok).
  destruct (Hok (snd (MigrateDatabase (Q := Scenario.pool) Fixture.files 10
                        Fixture.dir 2 Fixture.fresh))
              ltac:(vm_compute; reflexivity)) as [_ Hcalls].
  rewrite Hcalls. vm_compute. reflexivity.
Defined.

Lemma C3_version_is_target_witness :
  let after2 := MigrateDatabase (Q := Scenario.pool) Fixture.files 10
                  Fixture.dir 2 Fixture.fresh in
  let after1 := MigrateDatabase (Q := Scenario.pool) Fixture.files 10
                  Fixture.dir 1 (snd after2) in
  let latest := MigrateDatabase (Q := Scenario.pool) Fixture.files 10
                  Fixture.dir (-1) (snd after1) in
  fst after2 = Ok () /\ fst after1 = Ok () /\
  db (conn (snd after1)) = mkDb (Some 1) ["foo"] /\
  fst latest = Ok () /\ tracking (db (conn (snd latest))) = Some 3.
Proof.
  intros after2 after1 latest.
  destruct (C3_version_is_target (list string) Fixture.apply Fixture.files)
    as [Hany Htwice].
  destruct (Htwice 10%nat Fixture.dir Scenario.names Scenario.ms 2 1
              Fixture.fresh ScenarioFacts.apply_keeps_tracking
              Scenario.names_listed Scenario.ms_loaded
              ScenarioFacts.files_readable
              ltac:(change (0 <= 2 <= 3); lia) ltac:(change (0 <= 1 <= 3); lia)
              ltac:(vm_compute; reflexivity) ltac:(vm_compute; lia)
              eq_refl (or_introl eq_refl))
    as (r1 & w1 & r2 & w2 & H1 & H2 & Hfinal).
  assert (Hafter2 : after2 = (r1, w1)) by exact H1.
  assert (Hafter1 : after1 = (r2, w2))
    by (unfold after1; rewrite Hafter2; exact H2).
  vm_compute in H1. injection H1 as Hr1 Hw1. subst r1 w1.
  vm_compute in H2. injection H2 as Hr2 Hw2. subst r2 w2.
  destruct Hfinal as (_ & _ & Htr1); [intros f e; discriminate..|].
  split; [by rewrite Hafter2|]. split; [by rewrite Hafter1|].
  split; [vm_compute; reflexivity|].
  assert (Hrun : latest = (Ok (), snd latest)) by (vm_compute; reflexivity).
  destruct (Hany 10%nat Fixture.dir (-1) (snd after1) (snd latest)
              ltac:(vm_compute; split; discriminate) Hrun)
    as (names' & ms' & Hdir & Hload & Htr & Hmax & _).
  split; [by rewrite Hrun|].
  rewrite Htr, (Hmax eq_refl).
  rewrite Scenario.names_listed in Hdir. injection Hdir as <-.
  rewrite Scenario.ms_loaded in Hload. injection Hload as <-.
  reflexivity.
Defined.

Module BadNames.

(** The fixture with one more entry, whose number does not parse. *)
Definition files : gmap string node :=
  <[Fixture.dir := Dir ("x1-foo.up.sql" :: Scenario.names)]> Fixture.files.

End BadNames.


Lemma C7_version_bootstrap_witness :
  let first := getVersion (Q := Scenario.pool) Fixture.fresh in
  let second := getVersion (Q := Scenario.pool) (snd first) in
  let scan_error := DriverError "sql: Scan error on column index 0" in
  let broken := getVersion (Q := Scenario.pool)
                  (Scenario.at_version 4 [] [Some scan_error]) in
  fst first = Ok 0 /\ tracking (db (conn (snd first))) = Some 0 /\
  fst second = Ok 0 /\
  calls (snd second) = calls (snd first) ++ [CallQueryRow select_sql] /\
  fst broken = Err scan_error /\
  calls (snd broken) = [CallQueryRow select_sql].
Proof.
  intros first second scan_error broken.
  destruct (C7_version_bootstrap (list string) Fixture.apply) as [Hfresh Herr].
  destruct (Hfresh Fixture.fresh eq_refl eq_refl)
    as (w1 & Hv & Hdb & Hcalls & Hv2).
  assert (Hfirst : first = (Ok 0, w1)) by exact Hv.
  assert (Hsecond : second
                    = (Ok 0, logged (conn w1) [CallQueryRow select_sql] w1))
    by (unfold second; rewrite Hfirst; exact Hv2).
  assert (Hbroken : broken
                    = (Err scan_error,
                       logged (mkPg (mkDb (Some 4) []) ∅ 0%nat [])
                         [CallQueryRow select_sql]
                         (Scenario.at_version 4 [] [Some scan_error]))).
  { apply (Herr _ Scenario.pool (Scenario.at_version 4 [] [Some scan_error])
             (inl scan_error)); [reflexivity|reflexivity|discriminate]. }
  rewrite Hsecond, Hfirst, Hbroken. cbn [fst snd logged calls conn].
  rewrite Hdb. repeat split.
Defined.

Lemma C8_noop_at_target_witness :
  let w := Scenario.at_version 2 ["foo"; "bar"] [] in
  let again := MigrateDatabase (Q := Scenario.pool) Fixture.files 10
                 Fixture.dir 2 w in
  let first := MigrateDatabase (Q := Scenario.pool) Fixture.files 10
                 Fixture.dir 2 Fixture.fresh in
  let second := MigrateDatabase (Q := Scenario.pool) Fixture.files 0
                  Fixture.dir 2 (snd first) in
  again = (Ok (), mkWorld (conn w) [CallQueryRow select_sql;
                                    CallReadDir "migrations"]) /\
  fst second = Ok () /\ db (conn (snd second)) = db (conn (snd first)) /\
  calls (snd second) =
    calls (snd first) ++ [CallQueryRow select_sql; CallReadDir "migrations"].
Proof.
  intros w again first second.
  destruct (C8_noop_at_target (list string) Fixture.apply Fixture.files)
    as [Hidle Htwice].
  split.
  - unfold again.
    rewrite (Hidle _ Scenario.pool Fixture.files 10%nat Fixture.dir 2 w
               (snd (getVersion (Q := Scenario.pool) w)) 2
               Scenario.names Scenario.ms
               ltac:(vm_compute; reflexivity) Scenario.names_listed
               Scenario.ms_loaded eq_refl).
    vm_compute. reflexivity.
  - destruct (Htwice 10%nat 0%nat Fixture.dir 2 Fixture.fresh (snd first)
                (fst second) (snd second) ScenarioFacts.two_is_int
                ltac:(vm_compute; reflexivity)
                (surjective_pairing second))
      as (Hdb & l & Hcalls & _ & _ & _ & Hhealthy).
    destruct (Hhealthy ltac:(vm_compute; reflexivity)) as [Hok Hl].
    rewrite Hl in Hcalls. exact (conj Hok (conj Hdb Hcalls)).
Defined.

(** C9 as stated fails: after three migration files are all that is left
    of a longer set, a database at version 5 asked to go to version 5 is
    at rest; the run returns success and the persisted version, 5, is
    above the largest discovered number, 3. *)
Lemma C9_counterexample :
  let w := Scenario.at_version 5 ["foo"; "bar"; "baz"; "qux"; "quux"] [] in
  let r := MigrateDatabase (Q := Scenario.pool) Fixture.files 10
             Fixture.dir 5 w in
  ReadDir Fixture.files Fixture.dir = inr Scenario.names /\
  loadMigrations Scenario.names = inr Scenario.ms /\
  maxMigration Scenario.ms = 3 /\
  fst r = Ok () /\
  tracking (db (conn (snd r))) = Some 5 /\
  ~ (0 <= 5 <= maxMigration Scenario.ms).
Proof.
  vm_compute. repeat split; try reflexivity. intros [_ H]. by apply H.
Qed.

Lemma C9_version_stays_in_range_witness :
  let w := Scenario.at_version 3 ["foo"; "bar"; "baz"] [] in
  let r := MigrateDatabase (Q := Scenario.pool) Fixture.files 10
             Fixture.dir 1 w in
  fst r = Ok () /\
  exists v, tracking (db (conn (snd r))) = Some v /\ 0 <= v <= 3.
Proof.
  intros w r.
  assert (Hrun : r = (Ok (), snd r)) by (vm_compute; reflexivity).
  assert (Hstart : version_within (list string) (maxMigration Scenario.ms) w).
  { exists 3. split; [reflexivity|]. change (0 <= 3 <= 3). lia. }
  split; [by rewrite Hrun|].
  exact (C9_version_stays_in_range (list string) Fixture.apply Fixture.files
           10 Fixture.dir 1 w (snd r) Scenario.names Scenario.ms
           Scenario.names_listed Scenario.ms_loaded
           ltac:(vm_compute; split; discriminate) ltac:(lia)
           (or_intror Hstart) Hrun).
Defined.

Module WrappedNumbers.

(** A directory whose two down-files are numbered 0 and 2^64 - 1; as an
    [int] the latter is -1. *)
Definition names : list string :=
  ["0.down.sql"; "18446744073709551615.down.sql"].

Definition files : gmap string node :=
  list_to_map
    [ (Fixture.dir, Dir names);
      (Join Fixture.dir "0.down.sql", File Fixture.s1d);
      (Join Fixture.dir "18446744073709551615.down.sql", File Fixture.s2d) ].

End WrappedNumbers.

(** C10 as stated fails: numbers at and below 0 can have down-files.
    With the files of [WrappedNumbers] a database at version 0 asked to
    go to -2 runs the down-file of 0 and the one of -1, and the run
    returns success with -2 as the persisted version; no file-read error
    occurs. *)
Lemma C10_counterexample :
  let w := Scenario.at_version 0 ["foo"; "bar"] [] in
  let r := MigrateDatabase (Q := Scenario.pool) WrappedNumbers.files 10
             Fixture.dir (-2) w in
  fst r = Ok () /\
  db (conn (snd r)) = mkDb (Some (-2)) [] /\
  calls (snd r) =
    [CallQueryRow select_sql; CallReadDir "migrations";
     CallReadFile "migrations/0.down.sql"; CallBegin;
     CallExec Fixture.s1d []; CallExec update_sql [-1]; CallCommit;
     CallReadFile "migrations/18446744073709551615.down.sql"; CallBegin;
     CallExec Fixture.s2d []; CallExec update_sql [-2]; CallCommit].
Proof. vm_compute. repeat split. Qed.

Lemma C10_below_sentinel_witness :
  let w := Scenario.at_version 1 ["foo"] [] in
  let r := MigrateDatabase (Q := Scenario.pool) Fixture.files 10
             Fixture.dir (-2) w in
  fst r = Err (PathError "read" "migrations") /\
  db (conn (snd r)) = mkDb (Some 0) [] /\
  calls (snd r) =
    [CallQueryRow select_sql; CallReadDir "migrations";
     CallReadFile "migrations/001-foo.down.sql"; CallBegin;
     CallExec Fixture.s1d []; CallExec update_sql [0]; CallCommit;
     CallReadFile "migrations"].
Proof.
  intros w r.
  destruct (C10_below_sentinel (Q := Scenario.pool) Fixture.files 10
              Fixture.dir (-2) w 1
              (snd (getVersion (Q := Scenario.pool) w))
              Scenario.names Scenario.ms
              ltac:(vm_compute; reflexivity) Scenario.names_listed
              Scenario.ms_loaded
              ltac:(vm_compute; split; discriminate)
              ltac:(lia) ltac:(lia) ltac:(simpl; lia))
    as (_ & _ & Hmissing & _).
  set (w2 := logged (conn (snd (getVersion (Q := Scenario.pool) w)))
               [CallReadDir Fixture.dir]
               (snd (getVersion (Q := Scenario.pool) w))) in *.
  destruct (Hmissing 0
              (snd (run_plan (Q := Scenario.pool) Fixture.files
                      (down_plan Fixture.dir Scenario.ms 1 0) w2))
              ltac:(lia) ltac:(vm_compute; reflexivity)
              ltac:(vm_compute; reflexivity)) as [Hrun _].
  unfold r. rewrite Hrun. vm_compute. repeat split.
Defined.

(** * Further properties of the loader *)

Module LoaderMore.

(** The map of one direction, and the token that selects it. *)
Definition slot (up : bool) (ms : MigrationSet) : gmap Z string :=
  if up then upFiles ms else downFiles ms.

Definition token (up : bool) : string := if up then "up" else "down".

(** [name] is a migration file of direction [d] whose number, as an
    [int], is [k]. *)
Definition numbered (name d : string) (k : Z) : Prop :=
  exists a n u,
    migration_shape name a d /\ number_segment a n /\
    ParseUint n = Some u /\ int_of_uint64 u = k.

Lemma ParseUint_range s u : ParseUint s = Some u -> u < 2 ^ 64.
Proof.
  unfold ParseUint. destruct s; [done|].
  destruct (digits 0 _) as [n|]; [|done].
  destruct (Z.ltb_spec n (2 ^ 64)); [|done]. by intros [= <-].
Qed.

Lemma token_inj up up' : token up = token up' -> up = up'.
Proof. by destruct up, up'. Qed.

(** What [processFile] does with a numbered file. *)
Lemma processFile_numbered up name k ms :
  numbered name (token up) k ->
  exists ms',
    processFile name ms = inr ms' /\
    slot up ms' = <[k := name]> (slot up ms) /\
    slot (negb up) ms' = slot (negb up) ms /\
    maxMigration ms' = Z.max (maxMigration ms) k.
Proof.
  intros (a & n & u & Hshape & Hn%Split_number & Hu & Hk).
  rewrite (processFile_shape _ _ _ _ Hshape), Hn, Hu. simpl. rewrite Hk.
  assert ((if maxMigration ms <? k then k else maxMigration ms)
          = Z.max (maxMigration ms) k) as ->.
  { destruct (Z.ltb_spec (maxMigration ms) k); lia. }
  destruct up; simpl; repeat case_decide; try done;
    eexists; (split; [reflexivity|]); done.
Qed.

(** Every other accepted name leaves the entry of [k] in direction [up]
    alone. *)
Lemma processFile_other up name k ms ms' :
  processFile name ms = inr ms' ->
  ~ numbered name (token up) k ->
  slot up ms' !! k = slot up ms !! k.
Proof.
  unfold processFile. intros Hp Hno.
  destruct (Split "." name) as [|p0 [|p1 [|p2 [|p3 l]]]] eqn:Hsplit;
    try (by simplify_eq).
  case_decide as Hsql; [subst p2|by simplify_eq].
  apply Split_shape in Hsplit.
  destruct (ParseUint _) as [u|] eqn:Hu; [|done].
  assert (Hnum : forall up', p1 = token up' ->
            numbered name (token up') (int_of_uint64 u)).
  { intros up' ->. exists p0, (hd "" (Split "-" p0)), u.
    split; [done|]. split; [by apply Split_number|]. done. }
  repeat case_decide; simplify_eq; destruct up; simpl; try done;
    apply lookup_insert_ne; intros <-; apply Hno.
  - by apply (Hnum true).
  - by apply (Hnum false).
Qed.

Lemma indexFiles_other up names k ms ms' :
  indexFiles names ms = inr ms' ->
  (forall name, name ∈ names -> ~ numbered name (token up) k) ->
  slot up ms' !! k = slot up ms !! k.
Proof.
  revert ms. induction names as [|name names IH]; intros ms; simpl.
  - by intros [= ->].
  - destruct (processFile name ms) as [e|ms1] eqn:Hp; [done|].
    intros Hrest Hno. rewrite (IH _ Hrest).
    + apply (processFile_other _ _ _ _ _ Hp). apply Hno. by left.
    + intros name' Hin. apply Hno. by right.
Qed.

(** X2. The loader detects no duplicates: of the files listed for one
    number and direction, the one listed last is the entry of the map,
    and so the file a step runs. *)
Theorem X2_last_listed_file_wins (up : bool) before name after k ms :
  indexFiles (before ++ name :: after) emptySet = inr ms ->
  numbered name (token up) k ->
  (forall name', name' ∈ after -> ~ numbered name' (token up) k) ->
  slot up ms !! k = Some name.
Proof.
  rewrite indexFiles_app.
  destruct (indexFiles before emptySet) as [e|ms1]; [done|]. simpl.
  intros Hrest Hnum Hafter.
  destruct (processFile_numbered _ _ _ ms1 Hnum) as (ms2 & Hp & Hslot & _).
  rewrite Hp in Hrest.
  rewrite (indexFiles_other _ _ _ _ _ Hrest Hafter), Hslot.
  apply lookup_insert_eq.
Qed.

Lemma X2_last_listed_file_wins_witness :
  exists ms,
    indexFiles ["1-a.up.sql"; "01-b.up.sql"; "1-a.down.sql"] emptySet = inr ms /\
    upFiles ms !! 1 = Some "01-b.up.sql".
Proof.
  destruct (indexFiles ["1-a.up.sql"; "01-b.up.sql"; "1-a.down.sql"] emptySet)
    as [e|ms] eqn:Hidx; [vm_compute in Hidx; discriminate|].
  exists ms. split; [reflexivity|].
  apply (X2_last_listed_file_wins true ["1-a.up.sql"] "01-b.up.sql"
           ["1-a.down.sql"] 1 ms Hidx).
  - exists "01-b", "01", 1. split; [by apply Split_shape|].
    split; [by apply Split_number|]. split; reflexivity.
  - intros name' ->%list_elem_of_singleton (a & n & u & Hs%Split_shape & _).
    vm_compute in Hs. discriminate.
Defined.


(** Where the entries of the maps come from, and that the largest number
    is the number of an entry. *)
Definition provenance (seen : list string) (ms : MigrationSet) : Prop :=
  (forall up k name,
     slot up ms !! k = Some name ->
     name ∈ seen /\ numbered name (token up) k) /\
  (0 < maxMigration ms ->
     exists up, is_Some (slot up ms !! maxMigration ms)).

Lemma processFile_provenance seen name ms ms' :
  processFile name ms = inr ms' ->
  provenance seen ms -> provenance (seen ++ [name]) ms'.
Proof.
  intros Hp [Hfrom Hmax].
  assert (Hcases :
    (ms' = ms) \/
    exists up k, numbered name (token up) k /\
      slot up ms' = <[k := name]> (slot up ms) /\
      slot (negb up) ms' = slot (negb up) ms /\
      maxMigration ms' = Z.max (maxMigration ms) k).
  { pose proof Hp as Hp0. unfold processFile in Hp.
    destruct (Split "." name) as [|p0 [|p1 [|p2 [|p3 l]]]] eqn:Hsplit;
      try (left; by simplify_eq).
    case_decide as Hsql; [subst p2|left; by simplify_eq].
    apply Split_shape in Hsplit.
    destruct (ParseUint _) as [u|] eqn:Hu; [|done].
    assert (Hnum : forall up', p1 = token up' ->
              numbered name (token up') (int_of_uint64 u)).
    { intros up' ->. exists p0, (hd "" (Split "-" p0)), u.
      split; [done|]. split; [by apply Split_number|]. done. }
    assert (exists up', p1 = token up') as [up' Hp1].
    { repeat case_decide; [by exists true|by exists false|done]. }
    right. exists up', (int_of_uint64 u).
    destruct (processFile_numbered _ name _ ms (Hnum _ Hp1))
      as (ms2 & Hp2 & Hrest).
    rewrite Hp0 in Hp2. injection Hp2 as <-.
    split; [by apply Hnum|]. exact Hrest. }
  destruct Hcases as [->|(up & k & Hnum & Hslot & Hother & Hnew)].
  { split; [|done]. intros up k nm Hk.
    destruct (Hfrom up k nm Hk) as [Hin Hn]. split; [|done].
    apply elem_of_app. by left. }
  assert (Hlook : forall up' k' nm, slot up' ms' !! k' = Some nm ->
            (up' = up /\ k' = k /\ nm = name) \/ slot up' ms !! k' = Some nm).
  { intros up' k' nm Hk. destruct (decide (up' = up)) as [->|Hne].
    - rewrite Hslot in Hk. apply lookup_insert_Some in Hk as [[-> ->]|[_ Hk]];
        [by left|by right].
    - right. assert (up' = negb up) as -> by (by destruct up, up').
      by rewrite Hother in Hk. }
  split.
  - intros up' k' nm Hk. destruct (Hlook _ _ _ Hk) as [(-> & -> & ->)|Hold].
    + split; [|done]. apply elem_of_app. right. by left.
    + destruct (Hfrom _ _ _ Hold) as [Hin Hn]. split; [|done].
      apply elem_of_app. by left.
  - rewrite Hnew. intros Hpos.
    destruct (Z.max_spec (maxMigration ms) k) as [[_ Heq]|[_ Heq]];
      rewrite Heq in *.
    + exists up. rewrite Hslot, lookup_insert_eq. eauto.
    + destruct (Hmax Hpos) as [up' [nm Hk]].
      destruct (decide (up' = up)) as [->|Hne].
      * exists up. rewrite Hslot.
        destruct (decide (k = maxMigration ms)) as [->|Hkne];
          [rewrite lookup_insert_eq|rewrite lookup_insert_ne by done]; eauto.
      * exists up'. assert (up' = negb up) as -> by (by destruct up, up').
        rewrite Hother. eauto.
Qed.

Lemma indexFiles_provenance seen names ms ms' :
  indexFiles names ms = inr ms' ->
  provenance seen ms -> provenance (seen ++ names) ms'.
Proof.
  revert seen ms. induction names as [|name names IH]; intros seen ms; simpl.
  - intros [= ->]. by rewrite app_nil_r.
  - destruct (processFile name ms) as [e|ms1] eqn:Hp; [done|].
    intros Hrest Hprov. rewrite (cons_middle name seen names), app_assoc.
    apply (IH _ _ Hrest). by eapply processFile_provenance.
Qed.

Lemma provenance_empty : provenance [] emptySet.
Proof.
  split; [|simpl; lia]. intros up k name Hk.
  destruct up; simpl in Hk; by rewrite lookup_empty in Hk.
Qed.

(** X1. For a loaded set, [maxMigration] is the largest number found:
    it is 0 or the number of a listed migration file, no entry has a
    larger number, and every entry of the two maps is a listed file of
    that number and direction. *)
Theorem X1_largest_number names ms :
  loadMigrations names = inr ms ->
  0 <= maxMigration ms /\
  (forall up k name,
     slot up ms !! k = Some name ->
     name ∈ names /\ numbered name (token up) k /\ k <= maxMigration ms) /\
  (0 < maxMigration ms ->
     exists up name,
       name ∈ names /\ numbered name (token up) (maxMigration ms)).
Proof.
  intros Hload. destruct (loadMigrations_loaded _ _ Hload) as [[Hmax Hkeys] _].
  unfold loadMigrations in Hload.
  destruct (indexFiles names emptySet) as [e|ms1] eqn:Hidx; [done|].
  destruct (validate ms1); [done|]. injection Hload as ->.
  destruct (indexFiles_provenance [] _ _ _ Hidx provenance_empty)
    as [Hfrom Hattained].
  split; [lia|]. split.
  - intros up k name Hk. destruct (Hfrom _ _ _ Hk) as [Hin Hnum].
    split; [done|]. split; [done|].
    destruct up; simpl in Hk; eapply Hkeys; eauto.
  - intros Hpos. destruct (Hattained Hpos) as [up [name Hk]].
    exists up, name. by apply Hfrom.
Qed.

Lemma X1_largest_number_witness :
  exists ms,
    loadMigrations ["1.up.sql"; "1.down.sql"; "notes.txt"; "2-x.up.sql"]
      = inr ms /\
    maxMigration ms = 2 /\
    exists name, name ∈ ["1.up.sql"; "1.down.sql"; "notes.txt"; "2-x.up.sql"] /\
                 upFiles ms !! 2 = Some name.
Proof.
  destruct (loadMigrations ["1.up.sql"; "1.down.sql"; "notes.txt"; "2-x.up.sql"])
    as [e|ms] eqn:Hload; [vm_compute in Hload; discriminate|].
  exists ms. split; [reflexivity|].
  destruct (X1_largest_number _ ms Hload) as (_ & Hfrom & _).
  assert (Hup : upFiles ms !! 2 = Some "2-x.up.sql").
  { vm_compute in Hload. injection Hload as <-. reflexivity. }
  split.
  - vm_compute in Hload. by injection Hload as <-.
  - exists "2-x.up.sql". split; [|done].
    by destruct (Hfrom true 2 "2-x.up.sql" Hup) as [Hin _].
Defined.

(** X4. A number of 2^63 or more is accepted: converted to [int] it is
    negative, the file is stored under that negative key, and
    [maxMigration] is not raised by it. *)
Theorem X4_large_number_wraps (up : bool) name a n u ms :
  migration_shape name a (token up) -> number_segment a n ->
  ParseUint n = Some u -> 2 ^ 63 <= u -> 0 <= maxMigration ms ->
  exists ms',
    processFile name ms = inr ms' /\
    u - 2 ^ 64 < 0 /\
    slot up ms' !! (u - 2 ^ 64) = Some name /\
    maxMigration ms' = maxMigration ms.
Proof.
  intros Hshape Hn Hu Hbig Hmax.
  pose proof (ParseUint_range _ _ Hu) as Hlt.
  destruct (processFile_numbered up name (u - 2 ^ 64) ms)
    as (ms' & Hp & Hslot & _ & Hnew).
  { exists a, n, u. do 3 (split; [done|]). apply int_of_uint64_large. lia. }
  exists ms'. split; [done|]. split; [lia|]. split.
  - rewrite Hslot. apply lookup_insert_eq.
  - lia.
Qed.

Lemma X4_large_number_wraps_witness :
  exists ms',
    processFile "18446744073709551615.down.sql" emptySet = inr ms' /\
    downFiles ms' !! (-1) = Some "18446744073709551615.down.sql" /\
    maxMigration ms' = 0.
Proof.
  destruct (X4_large_number_wraps false "18446744073709551615.down.sql"
              "18446744073709551615" "18446744073709551615"
              18446744073709551615 emptySet)
    as (ms' & Hp & _ & Hslot & Hmax).
  - by apply Split_shape.
  - by apply Split_number.
  - reflexivity.
  - vm_compute. discriminate.
  - reflexivity.
  - exists ms'. split; [exact Hp|]. split; [exact Hslot|exact Hmax].
Defined.

(** X5. The first name of the listing that [processFile] rejects decides
    the result: its filename error is returned whatever follows it in
    the listing, and no completeness check takes place. *)
Theorem X5_first_rejected_name_decides good bad rest ms1 e :
  indexFiles good emptySet = inr ms1 ->
  processFile bad ms1 = inl e ->
  loadMigrations (good ++ bad :: rest) = inl e /\
  (e = InvalidFilename bad \/ e = BadFilename bad).
Proof.
  intros Hgood Hbad. unfold loadMigrations.
  rewrite indexFiles_app, Hgood. simpl. rewrite Hbad. split; [done|].
  unfold processFile in Hbad. repeat case_match; simplify_eq; auto.
Qed.

Lemma X5_first_rejected_name_decides_witness :
  loadMigrations ["1.up.sql"; "two.up.sql"; "3.sideways.sql"; "5.up.sql"]
    = inl (InvalidFilename "two.up.sql").
Proof.
  destruct (indexFiles ["1.up.sql"] emptySet) as [e|ms1] eqn:Hgood;
    [vm_compute in Hgood; discriminate|].
  apply (X5_first_rejected_name_decides ["1.up.sql"] "two.up.sql"
           ["3.sideways.sql"; "5.up.sql"] ms1 _ Hgood).
  vm_compute in Hgood. injection Hgood as <-. vm_compute. reflexivity.
Defined.

(** X6. A name that is not of the migration shape has no effect wherever
    it stands in the listing: the loader returns what it returns
    without it. *)
Theorem X6_other_names_ignored before name after :
  (forall a d, ~ migration_shape name a d) ->
  loadMigrations (before ++ name :: after) = loadMigrations (before ++ after).
Proof.
  intros Hno. unfold loadMigrations. rewrite !indexFiles_app.
  destruct (indexFiles before emptySet) as [e|ms1]; [done|]. simpl.
  by rewrite (processFile_skip _ _ Hno).
Qed.

Lemma X6_other_names_ignored_witness :
  loadMigrations ["1.up.sql"; "README.md"; "1.down.sql"]
    = loadMigrations ["1.up.sql"; "1.down.sql"].
Proof.
  apply (X6_other_names_ignored ["1.up.sql"] "README.md" ["1.down.sql"]).
  intros a d Hs%Split_shape. vm_compute in Hs. discriminate.
Defined.


(** X7. After a successful load every step between two versions below
    [maxMigration] runs a file of the listing: its path is the directory
    joined with a listed, non-empty name. *)
Theorem X7_interior_steps_run_listed_files names ms dir cur tgt :
  loadMigrations names = inr ms ->
  0 <= cur < maxMigration ms -> 0 <= tgt < maxMigration ms ->
  Forall (fun step => exists name,
            name ∈ names /\ name ≠ "" /\ step.1 = Join dir name)
         (plan dir ms cur tgt).
Proof.
  intros Hload Hcur Htgt.
  destruct (loadMigrations_loaded _ _ Hload) as [[_ Hkeys] Hvalid].
  unfold validate in Hvalid.
  pose proof (proj1 (checkFrom_None _ _ _) Hvalid) as Hcomplete.
  assert (Hfile : forall up idx, 1 <= idx < maxMigration ms ->
            exists name, name ∈ names /\ name ≠ "" /\
                         at_key (slot up ms) idx = name).
  { intros up idx Hidx. destruct (Hcomplete idx ltac:(lia)) as [[nu Hu] [nd Hd]].
    unfold loadMigrations in Hload.
    destruct (indexFiles names emptySet) as [e|ms1] eqn:Hidxs; [done|].
    destruct (validate ms1); [done|]. injection Hload as ->.
    destruct (indexFiles_provenance [] _ _ _ Hidxs provenance_empty)
      as [Hfrom _].
    destruct up; simpl; unfold at_key.
    - rewrite Hu. exists nu. destruct (Hfrom true idx nu Hu) as [Hin _].
      destruct (Hkeys idx nu (or_introl Hu)) as [_ Hne]. done.
    - rewrite Hd. exists nd. destruct (Hfrom false idx nd Hd) as [Hin _].
      destruct (Hkeys idx nd (or_intror Hd)) as [_ Hne]. done. }
  unfold plan, up_plan, down_plan.
  case_decide; rewrite Forall_fmap; [|apply Forall_reverse];
    apply Forall_seqZ; intros idx Hidx; simpl.
  - destruct (Hfile true idx ltac:(lia)) as (name & Hin & Hne & Hat).
    simpl in Hat. rewrite Hat. eauto.
  - destruct (Hfile false idx ltac:(lia)) as (name & Hin & Hne & Hat).
    simpl in Hat. rewrite Hat. eauto.
Qed.

Lemma X7_interior_steps_run_listed_files_witness :
  Forall (fun step => exists name,
            name ∈ Scenario.names /\ name ≠ "" /\
            step.1 = Join "migrations" name)
         (plan "migrations" Scenario.ms 2 0).
Proof.
  apply (X7_interior_steps_run_listed_files Scenario.names Scenario.ms
           "migrations" 2 0 Scenario.ms_loaded);
    change (maxMigration Scenario.ms) with 3; lia.
Defined.

End LoaderMore.

(** * Further properties of the engine *)

Global Instance Call_eq_dec : EqDecision Call.
Proof. solve_decision. Defined.

(** How often [c] was called. *)
Definition count (c : Call) (l : list Call) : nat :=
  length (filter (fun c' => c' = c) l).

Section EngineMore.

Context {C : Type} `{Q : Queryer C}.
Variable fs : gmap string node.

Implicit Types (w : World C) (ms : MigrationSet).

(** The calls of one step: complete when it went through ([true]), cut
    short where it failed ([false]). *)
Inductive step_trace (f : string) (v : Z) : bool -> list Call -> Prop :=
| st_committed content :
    step_trace f v true
      [CallReadFile f; CallBegin; CallExec content [];
       CallExec update_sql [v]; CallCommit]
| st_unreadable :
    step_trace f v false [CallReadFile f]
| st_no_tx :
    step_trace f v false [CallReadFile f; CallBegin]
| st_batch_failed content :
    step_trace f v false
      [CallReadFile f; CallBegin; CallExec content []; CallRollback]
| st_update_failed content :
    step_trace f v false
      [CallReadFile f; CallBegin; CallExec content [];
       CallExec update_sql [v]; CallRollback]
| st_commit_failed content :
    step_trace f v false
      [CallReadFile f; CallBegin; CallExec content [];
       CallExec update_sql [v]; CallCommit].

(** The calls of a pass: complete steps, then at most one failed one. *)
Inductive pass_trace : bool -> list Call -> Prop :=
| pt_end : pass_trace true []
| pt_step f v l rest ok :
    step_trace f v true l -> pass_trace ok rest -> pass_trace ok (l ++ rest)
| pt_failed f v l :
    step_trace f v false l -> pass_trace false l.

Definition succeeded {A} (r : result A) : bool :=
  match r with Err _ => false | _ => true end.

Lemma runFile_trace f v w r w' :
  runFile fs f v w = (r, w') ->
  r ≠ OutOfFuel /\
  exists l, calls w' = calls w ++ l /\ step_trace f v (succeeded r) l.
Proof.
  unfold runFile, bind, readFile, beginTx, execContext, commit, rollback,
    on_fs, on_conn, fail, ret. simpl.
  destruct (ReadFile fs f) as [e|content]; simpl.
  { intros [= <- <-]. split; [done|]. eexists. split; [done|]. constructor. }
  destruct (BeginTx (conn w)) as [[e|tx] c1]; simpl.
  { intros [= <- <-]. split; [done|]. eexists. simpl.
    rewrite <- app_assoc. split; [done|]. constructor. }
  destruct (ExecContext content [] c1) as [[e|] c2]; simpl.
  { destruct (Rollback tx c2) as [e' c3]. simpl.
    intros [= <- <-]. split; [done|]. eexists. simpl.
    rewrite <- !app_assoc. split; [done|]. apply st_batch_failed. }
  destruct (ExecContext update_sql [v] c2) as [[e|] c3]; simpl.
  { destruct (Rollback tx c3) as [e' c4]. simpl.
    intros [= <- <-]. split; [done|]. eexists. simpl.
    rewrite <- !app_assoc. split; [done|]. apply st_update_failed. }
  destruct (Commit tx c3) as [[e|] c4]; simpl;
    intros [= <- <-]; (split; [done|]); eexists; simpl;
    rewrite <- !app_assoc; (split; [done|]).
  - apply st_commit_failed.
  - apply st_committed.
Qed.

Lemma upLoop_trace fuel dir ms idx tgt w r w' :
  upLoop fs fuel dir ms idx tgt w = (r, w') ->
  exists l, calls w' = calls w ++ l /\ pass_trace (succeeded r) l.
Proof.
  revert idx w. induction fuel as [|fuel IH]; intros idx w; simpl;
    destruct (idx <=? tgt);
    try (intros [= <- <-]; exists []; rewrite app_nil_r;
         split; [done|constructor]).
  unfold bind.
  destruct (runFile fs _ idx w) as [r1 w1] eqn:Hrun.
  destruct (runFile_trace _ _ _ _ _ Hrun) as (Hfuel & l1 & Hl1 & Hstep).
  destruct r1 as [[]|e|]; [|intros [= <- <-]|done].
  - intros (l2 & Hl2 & Hrest)%IH. exists (l1 ++ l2).
    rewrite Hl2, Hl1, app_assoc. split; [done|]. by eapply pt_step.
  - exists l1. split; [done|]. by eapply pt_failed.
Qed.

Lemma downLoop_trace fuel dir ms idx tgt w r w' :
  downLoop fs fuel dir ms idx tgt w = (r, w') ->
  exists l, calls w' = calls w ++ l /\ pass_trace (succeeded r) l.
Proof.
  revert idx w. induction fuel as [|fuel IH]; intros idx w; simpl;
    destruct (idx >? tgt);
    try (intros [= <- <-]; exists []; rewrite app_nil_r;
         split; [done|constructor]).
  unfold bind.
  destruct (runFile fs _ (wrap (idx - 1)) w) as [r1 w1] eqn:Hrun.
  destruct (runFile_trace _ _ _ _ _ Hrun) as (Hfuel & l1 & Hl1 & Hstep).
  destruct r1 as [[]|e|]; [|intros [= <- <-]|done].
  - intros (l2 & Hl2 & Hrest)%IH. exists (l1 ++ l2).
    rewrite Hl2, Hl1, app_assoc. split; [done|]. by eapply pt_step.
  - exists l1. split; [done|]. by eapply pt_failed.
Qed.

Lemma count_app c (l1 l2 : list Call) :
  count c (l1 ++ l2) = (count c l1 + count c l2)%nat.
Proof. unfold count. by rewrite filter_app, length_app. Qed.

Definition not_on_tx (c : Call) : Prop := forall q args, c ≠ CallTxExec q args.

(** What holds of the calls of a step, and of a pass. *)
Definition tally (ok : bool) (l : list Call) : Prop :=
  (count CallCommit l + count CallRollback l <= count CallBegin l
   <= count CallCommit l + count CallRollback l + 1)%nat /\
  (count CallRollback l <= 1)%nat /\
  (CallRollback ∈ l -> ok = false /\ last l = Some CallRollback) /\
  (ok = true ->
     count CallBegin l = count CallCommit l /\ count CallRollback l = 0%nat) /\
  Forall not_on_tx l.

Lemma step_trace_tally f v ok l : step_trace f v ok l -> tally ok l.
Proof.
  intros Hstep. inversion Hstep; subst; unfold tally, count; simpl;
    (split; [lia|]); (split; [lia|]);
    (split; [rewrite ?elem_of_cons, ?elem_of_nil; naive_solver|]);
    (split; [naive_solver|]);
    repeat constructor; done.
Qed.

Lemma pass_trace_tally ok l : pass_trace ok l -> tally ok l.
Proof.
  induction 1 as [|f v l rest ok Hstep Hrest IH|f v l Hstep].
  - unfold tally, count. simpl. split; [lia|]. split; [lia|].
    split; [by intros ?%elem_of_nil|]. split; [done|]. constructor.
  - apply step_trace_tally in Hstep as (Hb1 & Hr1 & Hlast1 & Hok1 & Hno1).
    destruct IH as (Hb2 & Hr2 & Hlast2 & Hok2 & Hno2).
    destruct (Hok1 eq_refl) as [Heq1 Hz1].
    unfold tally. rewrite !count_app.
    split; [lia|]. split; [lia|]. split; [|split].
    + intros [Hin|Hin]%elem_of_app.
      * by destruct (Hlast1 Hin).
      * destruct (Hlast2 Hin) as [-> Hl]. split; [done|].
        rewrite last_app, Hl. done.
    + intros ->. destruct (Hok2 eq_refl). lia.
    + by apply Forall_app.
  - by eapply step_trace_tally.
Qed.

Definition head_call (dir : string) (c : Call) : Prop :=
  c = CallQueryRow select_sql \/ c = CallExec bootstrap_sql [] \/
  c = CallReadDir dir.

(** The calls of a run: those of the version read and the directory
    listing, then those of the pass. *)
Lemma MigrateDatabase_trace fuel dir target w r w' :
  MigrateDatabase fs fuel dir target w = (r, w') ->
  exists head steps,
    calls w' = calls w ++ head ++ steps /\
    Forall (head_call dir) head /\
    (steps = [] \/ pass_trace (succeeded r) steps).
Proof.
  destruct (getVersion w) as [rv w1] eqn:Hv.
  destruct (getVersion_calls _ _ _ Hv) as (Hfuel & _ & Hcalls).
  assert (Hhead : exists head, calls w1 = calls w ++ head /\
                               Forall (head_call dir) head).
  { destruct Hcalls as [Hc|Hc]; eexists; (split; [exact Hc|]);
      repeat (apply Forall_cons; split; [unfold head_call; auto|]);
      by apply Forall_nil. }
  destruct Hhead as (head & Hc & Hall).
  destruct rv as [cur|e|]; [| |done].
  - rewrite (MigrateDatabase_read _ _ _ _ _ _ _ Hv). simpl.
    assert (Hall' : Forall (head_call dir) (head ++ [CallReadDir dir])).
    { apply Forall_app. split; [done|].
      apply Forall_cons. split; [unfold head_call; auto|by apply Forall_nil]. }
    set (w2 := logged (conn w1) [CallReadDir dir] w1).
    assert (Hc2 : calls w2 = calls w ++ head ++ [CallReadDir dir]).
    { unfold w2. simpl. by rewrite Hc, app_assoc. }
    destruct (ReadDir fs dir) as [e|names].
    { intros [= <- <-]. exists (head ++ [CallReadDir dir]), [].
      rewrite app_nil_r. auto. }
    destruct (loadMigrations names) as [e|ms].
    { intros [= <- <-]. exists (head ++ [CallReadDir dir]), [].
      rewrite app_nil_r. auto. }
    unfold migrate. intros Hrun.
    assert (exists l, calls w' = calls w2 ++ l /\ pass_trace (succeeded r) l)
      as (l & Hl & Hpass).
    { destruct (_ >? _); [exact (upLoop_trace _ _ _ _ _ _ _ _ Hrun)|].
      destruct (_ <? _); [exact (downLoop_trace _ _ _ _ _ _ _ _ Hrun)|].
      injection Hrun as <- <-. exists []. rewrite app_nil_r.
      split; [done|constructor]. }
    exists (head ++ [CallReadDir dir]), l.
    rewrite Hl, Hc2, <- !app_assoc. auto.
  - rewrite (MigrateDatabase_unread _ _ _ _ _ _ _ Hv). intros [= <- <-].
    exists head, []. rewrite app_nil_r. auto.
Qed.

Lemma head_tally dir head :
  Forall (head_call dir) head ->
  count CallBegin head = 0%nat /\ count CallCommit head = 0%nat /\
  count CallRollback head = 0%nat /\ (CallRollback ∉ head) /\
  Forall not_on_tx head.
Proof.
  induction 1 as [|c head Hc Hrest (Hb & Hcm & Hr & Hnot & Hno)].
  - unfold count. simpl. do 3 (split; [done|]).
    split; [by intros ?%elem_of_nil|constructor].
  - unfold count in *. simpl.
    destruct Hc as [->|[->| ->]]; simpl;
      (do 3 (split; [done|]));
      (split; [rewrite elem_of_cons; naive_solver|]);
      (constructor; [done|done]).
Qed.

(** X8. Whatever the connection does and however the run ends, no
    statement is ever sent on a transaction: [tx.ExecContext] is not
    among the calls of a run. *)
Theorem X8_nothing_sent_on_transaction fuel dir target w :
  exists l,
    calls (snd (MigrateDatabase fs fuel dir target w)) = calls w ++ l /\
    forall q args, CallTxExec q args ∉ l.
Proof.
  destruct (MigrateDatabase fs fuel dir target w) as [r w'] eqn:Hrun.
  destruct (MigrateDatabase_trace _ _ _ _ _ _ Hrun)
    as (head & steps & Hcalls & Hhead & Hsteps).
  exists (head ++ steps). split; [done|].
  destruct (head_tally _ _ Hhead) as (_ & _ & _ & _ & Hno1).
  assert (Hno2 : Forall not_on_tx steps).
  { destruct Hsteps as [->|Hpass]; [constructor|].
    by apply pass_trace_tally in Hpass as (_ & _ & _ & _ & Hno). }
  intros q args Hin.
  assert (Hall : Forall not_on_tx (head ++ steps)) by (by apply Forall_app).
  rewrite Forall_forall in Hall. by apply (Hall _ Hin q args).
Qed.

(** X9. In the calls of any run every transaction begun is ended before
    the next one begins: commits and rollbacks together are as many as
    the begins, or one fewer when the last [BeginTx] failed; a rollback
    happens at most once, is the last call of the run, and the run then
    returns an error; a run that returns success has committed every
    transaction it began. *)
Theorem X9_transactions_are_ended fuel dir target w :
  exists l,
    let r := fst (MigrateDatabase fs fuel dir target w) in
    calls (snd (MigrateDatabase fs fuel dir target w)) = calls w ++ l /\
    (count CallCommit l + count CallRollback l <= count CallBegin l
     <= count CallCommit l + count CallRollback l + 1)%nat /\
    (count CallRollback l <= 1)%nat /\
    (CallRollback ∈ l ->
       last l = Some CallRollback /\ exists e, r = Err e) /\
    (r = Ok () ->
       count CallBegin l = count CallCommit l /\
       count CallRollback l = 0%nat).
Proof.
  destruct (MigrateDatabase fs fuel dir target w) as [r w'] eqn:Hrun.
  destruct (MigrateDatabase_trace _ _ _ _ _ _ Hrun)
    as (head & steps & Hcalls & Hhead & Hsteps).
  exists (head ++ steps). simpl. split; [done|].
  destruct (head_tally _ _ Hhead) as (Hb & Hc & Hr & Hnot & _).
  rewrite !count_app, Hb, Hc, Hr. simpl.
  destruct Hsteps as [->|Hpass].
  { unfold count. simpl. split; [lia|]. split; [lia|].
    rewrite app_nil_r. split; [done|]. done. }
  apply pass_trace_tally in Hpass as (Hb2 & Hr2 & Hlast & Hok & _).
  split; [lia|]. split; [lia|]. split.
  - intros [Hin|Hin]%elem_of_app; [done|].
    destruct (Hlast Hin) as [Hfail Hl]. rewrite last_app, Hl.
    split; [done|]. destruct r; try done. eauto.
  - intros ->. by apply Hok.
Qed.

(** The ascending loop up to a step that fails. *)
Lemma upLoop_fails_at fuel dir ms idx j tgt w w3 e w4 :
  min_int <= idx -> tgt <= max_int -> idx <= j <= tgt ->
  (Z.to_nat (j - idx + 1) <= fuel)%nat ->
  run_plan fs (up_plan dir ms (idx - 1) (j - 1)) w = (Ok (), w3) ->
  runFile fs (Join dir (at_key (upFiles ms) j)) j w3 = (Err e, w4) ->
  upLoop fs fuel dir ms idx tgt w = (Err e, w4).
Proof.
  unfold up_plan. replace (idx - 1 + 1) with idx by lia.
  replace (j - 1 - (idx - 1)) with (j - idx) by lia.
  revert idx w. induction fuel as [|fuel IH]; intros idx w Hmin Hmax Hj Hfuel;
    [lia|].
  simpl. destruct (Z.leb_spec idx tgt); [|lia]. unfold bind.
  destruct (decide (idx = j)) as [->|Hne].
  - rewrite seqZ_nil by lia. simpl. intros [= <-] Hfail. by rewrite Hfail.
  - rewrite seqZ_cons by lia. simpl.
    destruct (runFile fs _ idx w) as [[[]|e1|] w1]; try done.
    intros Hrest Hfail.
    rewrite wrap_id by (unfold is_int, min_int, max_int in *; lia).
    apply IH; try lia; [|done].
    by replace (j - (idx + 1)) with (Z.pred (j - idx)) by lia.
Qed.

(** X15. A target is not checked against the files there are.  In the
    ascending pass, at the first index that has no up-file the run fails
    with the error of reading the directory path as a file, the steps
    below it having been executed and committed; such an index is
    [maxMigration + 1] whenever the target is larger than
    [maxMigration]. *)
Theorem X15_ascending_pass_stops_at_missing_up_file
    fuel dir target w cur w1 names ms :
  getVersion w = (Ok cur, w1) ->
  ReadDir fs dir = inr names ->
  loadMigrations names = inr ms ->
  is_int target ->
  let tgt := resolve target ms in
  let w2 := logged (conn w1) [CallReadDir dir] w1 in
  (forall j w3,
     cur < j <= tgt -> upFiles ms !! j = None ->
     (Z.to_nat (j - cur) <= fuel)%nat ->
     run_plan fs (up_plan dir ms cur (j - 1)) w2 = (Ok (), w3) ->
     MigrateDatabase fs fuel dir target w
       = (Err (PathError "read" dir), logged (conn w3) [CallReadFile dir] w3)) /\
  upFiles ms !! (maxMigration ms + 1) = None.
Proof.
  intros Hv Hdir Hload Htarget tgt w2.
  destruct (loadMigrations_loaded _ _ Hload) as [Hms _].
  pose proof (resolve_is_int _ _ Htarget Hms) as Htgt. fold tgt in Htgt.
  destruct (getVersion_calls _ _ _ Hv) as (_ & Hcur & _).
  specialize (Hcur cur eq_refl). split.
  - intros j w3 Hj Hnone Hfuel Hbelow.
    rewrite (MigrateDatabase_read _ _ _ _ _ _ _ Hv), Hdir, Hload. simpl.
    fold tgt w2. unfold migrate.
    destruct (Z.gtb_spec tgt cur); [|lia].
    rewrite wrap_id by (unfold is_int, min_int, max_int in *; lia).
    apply (upLoop_fails_at fuel dir ms (cur + 1) j tgt w2 w3);
      unfold is_int in *; try lia.
    + by replace (cur + 1 - 1) with cur by lia.
    + unfold at_key. rewrite Hnone. simpl. change (Join dir "") with dir.
      apply runFile_unreadable. by eapply ReadFile_directory.
  - destruct Hms as [_ Hkeys].
    destruct (upFiles ms !! (maxMigration ms + 1)) as [name|] eqn:Hname;
      [|done].
    destruct (Hkeys _ _ (or_introl Hname)). lia.
Qed.

(** X3. With the largest [int] as target the condition of the ascending
    loop is always true: the run returns success only when it has
    nothing to do, the version read being that same number. *)
Theorem X3_largest_int_target fuel dir w w' :
  MigrateDatabase fs fuel dir max_int w = (Ok (), w') ->
  exists w1, getVersion w = (Ok max_int, w1).
Proof.
  intros (cur & w1 & names & ms & Hv & Hdir & Hload & Hrun)%MigrateDatabase_ok_inv.
  destruct (getVersion_calls _ _ _ Hv) as (_ & Hcur & _).
  specialize (Hcur cur eq_refl).
  assert (Hres : resolve max_int ms = max_int) by reflexivity.
  rewrite Hres in Hrun. unfold migrate in Hrun.
  destruct (Z.gtb_spec max_int cur) as [Hup|Hnot].
  - pose proof (upLoop_max_int fs fuel dir ms (wrap (cur + 1))
                  (logged (conn w1) [CallReadDir dir] w1) (wrap_is_int _))
      as Hno.
    by rewrite Hrun in Hno.
  - exists w1. assert (cur = max_int) as -> by (unfold is_int in Hcur; lia).
    done.
Qed.

(** X14. A directory without a single migration file loads as the empty
    set, whose largest number is 0.  The target -1 then means 0: at
    version 0 the run is at rest, and at a version above 0 it fails at
    once, reading the directory path as the down-file it does not
    have. *)
Theorem X14_directory_without_migrations fuel dir w cur w1 names :
  (forall name, name ∈ names -> forall a d, ~ migration_shape name a d) ->
  getVersion w = (Ok cur, w1) ->
  ReadDir fs dir = inr names ->
  (1 <= fuel)%nat ->
  loadMigrations names = inr emptySet /\
  (cur = 0 ->
     MigrateDatabase fs fuel dir (-1) w
       = (Ok (), logged (conn w1) [CallReadDir dir] w1)) /\
  (0 < cur ->
     MigrateDatabase fs fuel dir (-1) w
       = (Err (PathError "read" dir),
          logged (conn w1) [CallReadDir dir; CallReadFile dir] w1)).
Proof.
  intros Hnone Hv Hdir Hfuel.
  assert (Hidx : forall ms, indexFiles names ms = inr ms).
  { clear Hdir. induction names as [|name names IH]; intros ms; simpl; [done|].
    rewrite processFile_skip by (apply Hnone; by left).
    apply IH. intros name' Hin. apply Hnone. by right. }
  assert (Hload : loadMigrations names = inr emptySet).
  { unfold loadMigrations. rewrite Hidx. reflexivity. }
  split; [done|].
  rewrite (MigrateDatabase_read _ _ _ _ _ _ _ Hv), Hdir, Hload. simpl.
  change (resolve (-1) emptySet) with 0. split.
  - intros ->. apply migrate_idle.
  - intros Hpos. unfold migrate.
    destruct (Z.gtb_spec 0 cur); [lia|].
    destruct (Z.ltb_spec 0 cur); [|lia].
    destruct fuel as [|fuel]; [lia|]. simpl.
    destruct (Z.gtb_spec cur 0); [|lia]. unfold bind.
    change (Join dir (at_key (downFiles emptySet) cur)) with dir.
    rewrite (runFile_unreadable _ _ _ _ _ (ReadFile_directory _ _ _ Hdir)).
    unfold logged. simpl. by rewrite <- app_assoc.
Qed.

End EngineMore.

Module NoMigrations.

(** A directory that holds no migration file. *)
Definition files : gmap string node :=
  list_to_map [ (Fixture.dir, Dir ["README.md"; "schema.sql"]) ].

End NoMigrations.

Lemma X14_directory_without_migrations_witness :
  let rest := MigrateDatabase (Q := Scenario.pool) NoMigrations.files 1
                Fixture.dir (-1) (Scenario.at_version 0 [] []) in
  let stuck := MigrateDatabase (Q := Scenario.pool) NoMigrations.files 1
                 Fixture.dir (-1) (Scenario.at_version 2 ["foo"; "bar"] []) in
  fst rest = Ok () /\
  fst stuck = Err (PathError "read" "migrations") /\
  db (conn (snd stuck)) = mkDb (Some 2) ["foo"; "bar"].
Proof.
  intros rest stuck.
  assert (Hnone : forall name, name ∈ ["README.md"; "schema.sql"] ->
                  forall a d, ~ migration_shape name a d).
  { intros name Hin a d Hs%Split_shape.
    apply elem_of_cons in Hin as [->|Hin];
      [|apply list_elem_of_singleton in Hin as ->];
      vm_compute in Hs; discriminate. }
  destruct (X14_directory_without_migrations (Q := Scenario.pool)
              NoMigrations.files 1 Fixture.dir (Scenario.at_version 0 [] []) 0
              (snd (getVersion (Q := Scenario.pool)
                      (Scenario.at_version 0 [] [])))
              ["README.md"; "schema.sql"] Hnone
              ltac:(vm_compute; reflexivity) ltac:(vm_compute; reflexivity)
              ltac:(lia))
    as (_ & Hrest & _).
  destruct (X14_directory_without_migrations (Q := Scenario.pool)
              NoMigrations.files 1 Fixture.dir
              (Scenario.at_version 2 ["foo"; "bar"] []) 2
              (snd (getVersion (Q := Scenario.pool)
                      (Scenario.at_version 2 ["foo"; "bar"] [])))
              ["README.md"; "schema.sql"] Hnone
              ltac:(vm_compute; reflexivity) ltac:(vm_compute; reflexivity)
              ltac:(lia))
    as (_ & _ & Hstuck).
  unfold rest, stuck. rewrite (Hrest eq_refl), (Hstuck ltac:(lia)).
  split; [reflexivity|]. split; [reflexivity|]. vm_compute. reflexivity.
Defined.

Lemma X15_ascending_pass_stops_at_missing_up_file_witness :
  let r := MigrateDatabase (Q := Scenario.pool) Fixture.files 10
             Fixture.dir 5 Fixture.fresh in
  fst r = Err (PathError "read" "migrations") /\
  db (conn (snd r)) = mkDb (Some 3) ["foo"; "bar"; "baz"].
Proof.
  intros r.
  destruct (X15_ascending_pass_stops_at_missing_up_file (Q := Scenario.pool)
              Fixture.files 10 Fixture.dir 5 Fixture.fresh 0
              (snd (getVersion (Q := Scenario.pool) Fixture.fresh))
              Scenario.names Scenario.ms
              ltac:(vm_compute; reflexivity) Scenario.names_listed
              Scenario.ms_loaded ltac:(vm_compute; split; discriminate))
    as [Hstop _].
  set (w2 := logged (conn (snd (getVersion (Q := Scenario.pool) Fixture.fresh)))
               [CallReadDir Fixture.dir]
               (snd (getVersion (Q := Scenario.pool) Fixture.fresh))) in *.
  assert (Hrun : r = (Err (PathError "read" Fixture.dir),
                      logged (conn (snd (run_plan (Q := Scenario.pool)
                                Fixture.files
                                (up_plan Fixture.dir Scenario.ms 0 (4 - 1)) w2)))
                        [CallReadFile Fixture.dir]
                        (snd (run_plan (Q := Scenario.pool) Fixture.files
                                (up_plan Fixture.dir Scenario.ms 0 (4 - 1)) w2)))).
  { apply (Hstop 4).
    - change (resolve 5 Scenario.ms) with 5. lia.
    - vm_compute. reflexivity.
    - vm_compute. lia.
    - vm_compute. reflexivity. }
  rewrite Hrun. split; [reflexivity|]. vm_compute. reflexivity.
Defined.

Lemma X3_largest_int_target_witness :
  let w := Scenario.at_version max_int [] [] in
  fst (MigrateDatabase (Q := Scenario.pool) Fixture.files 0 Fixture.dir
         max_int w) = Ok () /\
  exists w1, getVersion (Q := Scenario.pool) w = (Ok max_int, w1).
Proof.
  intros w.
  assert (Hrun : MigrateDatabase (Q := Scenario.pool) Fixture.files 0
                   Fixture.dir max_int w
                 = (Ok (), snd (MigrateDatabase (Q := Scenario.pool)
                                  Fixture.files 0 Fixture.dir max_int w)))
    by (vm_compute; reflexivity).
  split; [by rewrite Hrun|].
  exact (X3_largest_int_target (Q := Scenario.pool) Fixture.files 0
           Fixture.dir w _ Hrun).
Defined.

(** * Further properties of runs on the pool *)

Section Frame.

Context {C : Type} `{Q : Queryer C}.
Variable fs : gmap string node.

Implicit Types (w : World C) (ms : MigrationSet).

(** What a step returns and does to the connection does not depend on
    the calls recorded so far. *)
Lemma runFile_frame f v w w' :
  conn w = conn w' ->
  fst (runFile fs f v w) = fst (runFile fs f v w') /\
  conn (snd (runFile fs f v w)) = conn (snd (runFile fs f v w')).
Proof.
  intros Hconn.
  unfold runFile, bind, readFile, beginTx, execContext, commit, rollback,
    on_fs, on_conn, fail, ret. simpl. rewrite <- Hconn.
  destruct (ReadFile fs f) as [e|content]; simpl; [done|].
  destruct (BeginTx (conn w)) as [[e|tx] c1]; simpl; [done|].
  destruct (ExecContext content [] c1) as [[e|] c2]; simpl.
  { by destruct (Rollback tx c2). }
  destruct (ExecContext update_sql [v] c2) as [[e|] c3]; simpl.
  { by destruct (Rollback tx c3). }
  by destruct (Commit tx c3) as [[e|] c4].
Qed.

Lemma run_plan_frame steps w w' :
  conn w = conn w' ->
  fst (run_plan fs steps w) = fst (run_plan fs steps w') /\
  conn (snd (run_plan fs steps w)) = conn (snd (run_plan fs steps w')).
Proof.
  revert w w'. induction steps as [|[f v] steps IH]; intros w w' Hconn; simpl;
    [done|].
  destruct (runFile_frame f v w w' Hconn) as [Hr Hc].
  destruct (runFile fs f v w) as [r1 w1], (runFile fs f v w') as [r1' w1'].
  simpl in *. subst r1'. destruct r1 as [[]|e|]; simpl; auto.
Qed.

(** Going by way of an intermediate version is going step by step. *)
Lemma plan_by_way_of dir ms cur mid tgt :
  cur <= mid <= tgt \/ tgt <= mid <= cur ->
  plan dir ms cur tgt = plan dir ms cur mid ++ plan dir ms mid tgt.
Proof.
  intros Hbetween.
  assert (Hup : forall a b, a <= b -> plan dir ms a b = up_plan dir ms a b).
  { intros a b Hab. unfold plan. case_decide; [done|].
    unfold up_plan, down_plan. by rewrite !seqZ_nil by lia. }
  assert (Hdown : forall a b, b <= a -> plan dir ms a b = down_plan dir ms a b).
  { intros a b Hab. unfold plan. case_decide; [lia|done]. }
  destruct Hbetween as [Hasc|Hdesc].
  - rewrite !Hup by lia. unfold up_plan. rewrite <- fmap_app. f_equal.
    replace (tgt - cur) with ((mid - cur) + (tgt - mid)) by lia.
    rewrite seqZ_app by lia. do 2 f_equal. lia.
  - rewrite !Hdown by lia. apply down_plan_split. lia.
Qed.

End Frame.

Section PoolMore.

Variable R : Type.
Variable apply : string -> Database R -> error + Database R.
Variable fs : gmap string node.

Implicit Types (w : World (Pg R)) (s : Pg R) (d : Database R).

Local Abbreviation getVersionP := (getVersion (Q := Pool R apply)).
Local Abbreviation runFileP := (runFile (Q := Pool R apply) fs).
Local Abbreviation run_planP := (run_plan (Q := Pool R apply) fs).
Local Abbreviation MigrateDatabaseP := (MigrateDatabase (Q := Pool R apply) fs).

(** X10. The version is read, and the tracking table created, before the
    directory is looked at: with an unreadable migrations directory a run
    on a database without tracking table returns the directory error and
    has by then created the table with version 0. *)
Theorem X10_bootstrap_precedes_directory_error fuel dir target w e :
  faults (conn w) = [] -> tracking (db (conn w)) = None ->
  ReadDir fs dir = inl e ->
  exists w',
    MigrateDatabaseP fuel dir target w = (Err e, w') /\
    db (conn w') = mkDb (Some 0) (relations (db (conn w))) /\
    calls w' = calls w ++ [CallQueryRow select_sql;
                           CallExec bootstrap_sql []; CallReadDir dir].
Proof.
  intros Hf Hnone Hdir.
  rewrite (MigrateDatabase_read _ _ _ _ _ _ _
             (getVersion_pool_fresh R apply w Hf Hnone)), Hdir.
  eexists. split; [done|]. split; [done|]. simpl. by rewrite <- app_assoc.
Qed.

Lemma runFile_pool_faults f v w r w' :
  faults (conn w) = [] ->
  runFileP f v w = (r, w') -> faults (conn w') = [].
Proof.
  intros Hf Hrun%runFile_paths.
  inversion Hrun as
    [ e Hf0
    | content0 e c1 Hf0 Hb
    | content0 tx c1 e c2 e' c3 Hf0 Hb H1 Hr
    | content0 tx c1 c2 e c3 e' c4 Hf0 Hb H1 H2 Hr
    | content0 tx c1 c2 c3 e c4 Hf0 Hb H1 H2 Hc
    | content0 tx c1 c2 c3 c4 Hf0 Hb H1 H2 Hc ]; subst; simpl in *;
    [done|..];
    apply pool_begin_inv in Hb as (_ & Hh1 & Htx);
    destruct (Hh1 Hf) as [Hf1 _]; [done|..].
  - apply pool_exec_inv in H1 as (_ & _ & Hh2 & _).
    apply pool_rollback_inv in Hr as (_ & Hh3). auto.
  - apply pool_exec_inv in H1 as (_ & _ & Hh2 & _).
    apply pool_exec_inv in H2 as (_ & _ & Hh3 & _).
    apply pool_rollback_inv in Hr as (_ & Hh4). auto.
  - apply pool_exec_inv in H1 as (Htx1 & _ & Hh2 & _).
    apply pool_exec_inv in H2 as (Htx2 & _ & Hh3 & _).
    apply pool_commit_inv in Hc as [_ Hh4];
      [|rewrite Htx2, Htx1; by apply Htx].
    by destruct (Hh4 (Hh3 (Hh2 Hf1))).
  - apply pool_exec_inv in H1 as (Htx1 & _ & Hh2 & _).
    apply pool_exec_inv in H2 as (Htx2 & _ & Hh3 & _).
    apply pool_commit_inv in Hc as [_ Hh4];
      [|rewrite Htx2, Htx1; by apply Htx].
    by destruct (Hh4 (Hh3 (Hh2 Hf1))).
Qed.

Lemma run_plan_pool_faults steps w r w' :
  faults (conn w) = [] ->
  run_planP steps w = (r, w') -> faults (conn w') = [].
Proof.
  revert w. induction steps as [|[f v] steps IH]; intros w Hf; simpl.
  - by intros [= <- <-].
  - destruct (runFileP f v w) as [r1 w1] eqn:Hrun.
    pose proof (runFile_pool_faults _ _ _ _ _ Hf Hrun) as Hf1.
    destruct r1 as [[]|e|]; [by apply IH|by intros [= <- <-]..].
Qed.

(** X12. On a healthy pool, going to a target by way of an intermediate
    version between the current one and the target gives the same result
    and leaves the same connection state (database included) as going to
    the target directly. *)
Theorem X12_by_way_of_an_intermediate_version
    fuel dir cur mid tgt w wv w1 :
  faults (conn w) = [] ->
  getVersionP w = (Ok cur, wv) ->
  is_int mid -> is_int tgt -> mid ≠ -1 -> tgt ≠ -1 -> tgt < max_int ->
  cur <= mid <= tgt \/ tgt <= mid <= cur ->
  (Z.abs_nat (tgt - cur) <= fuel)%nat ->
  MigrateDatabaseP fuel dir mid w = (Ok (), w1) ->
  fst (MigrateDatabaseP fuel dir tgt w1) = fst (MigrateDatabaseP fuel dir tgt w) /\
  conn (snd (MigrateDatabaseP fuel dir tgt w1))
    = conn (snd (MigrateDatabaseP fuel dir tgt w)).
Proof.
  intros Hf Hv Hmid Htgt Hmid1 Htgt1 Hmax Hbetween Hfuel Hrun1.
  destruct (MigrateDatabase_pool_ok R apply fs _ _ _ _ _ Hmid Hrun1)
    as (cur' & wv' & names & ms & Hv' & Hdir & Hload & Hplan1 & Htr1).
  rewrite Hv in Hv'. injection Hv' as <- <-.
  assert (Hres : forall t, t ≠ -1 -> resolve t ms = t).
  { intros t Ht. unfold resolve. by destruct (Z.eqb_spec t (-1)). }
  rewrite (Hres mid Hmid1) in Hplan1, Htr1.
  destruct (getVersion_pool_ok R apply _ _ _ Hv) as (Hcur & _ & _ & _ & Hfv).
  set (w2 := logged (conn wv) [CallReadDir dir] wv) in *.
  (* the direct run *)
  assert (Hdirect : MigrateDatabaseP fuel dir tgt w
                    = run_planP (plan dir ms mid tgt) w1).
  { rewrite (MigrateDatabase_read _ _ _ _ _ _ _ Hv), Hdir, Hload. simpl.
    fold w2. rewrite (Hres tgt Htgt1).
    rewrite migrate_plan by done.
    rewrite (plan_by_way_of dir ms cur mid tgt Hbetween), run_plan_app.
    by rewrite Hplan1. }
  (* the second of the two runs *)
  assert (Hf1 : faults (conn w1) = []).
  { eapply run_plan_pool_faults; [|exact Hplan1]. by apply Hfv. }
  pose proof (getVersion_pool_stored R apply w1 mid Hf1 Htr1 Hmid) as Hv1.
  assert (Hsecond : MigrateDatabaseP fuel dir tgt w1
                    = run_planP (plan dir ms mid tgt)
                        (logged (conn w1) [CallReadDir dir]
                           (logged (conn w1) [CallQueryRow select_sql] w1))).
  { rewrite (MigrateDatabase_read _ _ _ _ _ _ _ Hv1), Hdir, Hload. simpl.
    rewrite (Hres tgt Htgt1). apply migrate_plan; try done. lia. }
  rewrite Hdirect, Hsecond. by apply run_plan_frame.
Qed.

(** The versions of a pass follow one another from the current one. *)
Fixpoint chained (delta from : Z) (steps : list (string * Z)) : Prop :=
  match steps with
  | [] => True
  | (_, v) :: rest => v = from + delta /\ chained delta v rest
  end.

Lemma up_plan_chained dir ms cur tgt : chained 1 cur (up_plan dir ms cur tgt).
Proof.
  unfold up_plan.
  remember (Z.to_nat (tgt - cur)) as n eqn:Hn. revert cur Hn.
  induction n as [|n IH]; intros cur Hn.
  - by rewrite seqZ_nil by lia.
  - rewrite seqZ_cons by lia. simpl. split; [done|].
    replace (Z.succ (cur + 1)) with (cur + 1 + 1) by lia.
    replace (Z.pred (tgt - cur)) with (tgt - (cur + 1)) by lia.
    apply IH. lia.
Qed.

Lemma down_plan_chained dir ms cur tgt :
  chained (-1) cur (down_plan dir ms cur tgt).
Proof.
  remember (Z.to_nat (cur - tgt)) as n eqn:Hn. revert cur Hn.
  induction n as [|n IH]; intros cur Hn.
  - unfold down_plan. by rewrite seqZ_nil by lia.
  - rewrite down_plan_cons by lia. simpl. split; [lia|].
    apply IH. lia.
Qed.

Lemma run_plan_pool_failed delta steps w from f e w' :
  keeps_tracking R apply ->
  faults (conn w) = [] -> tracking (db (conn w)) = Some from ->
  chained delta from steps ->
  Forall (fun step => exists content, ReadFile fs step.1 = inr content) steps ->
  run_planP steps w = (Err (Executing f e), w') ->
  exists v, (f, v) ∈ steps /\ tracking (db (conn w')) = Some (v - delta).
Proof.
  intros Hkeep. revert w from.
  induction steps as [|[f1 v1] steps IH]; intros w from Hf Htr Hchain Hready;
    simpl; [done|].
  destruct Hchain as [-> Hchain].
  apply Forall_cons in Hready as [[content Hfile] Hready]. simpl in Hfile.
  destruct (runFileP f1 (from + delta) w) as [r1 w1] eqn:Hrun.
  destruct (runFile_pool_healthy R apply fs _ _ _ _ _ _ Hkeep Hf
              ltac:(by rewrite Htr) Hfile Hrun)
    as [Hf1 [[-> Htr1]|[e1 [-> Hdb]]]].
  - intros Hrest.
    destruct (IH w1 (from + delta) Hf1 Htr1 Hchain Hready Hrest)
      as (v & Hin & Hv).
    exists v. split; [by right|done].
  - intros [= <- <- <-]. exists (from + delta). split; [by left|].
    rewrite Hdb, Htr. f_equal. lia.
Qed.

(** X11. On a healthy pool with all files readable, when the batch of a
    file fails the run returns the error that names the file, and the
    persisted version is the one the last completed step stored: one
    below the failed index in the ascending pass, the failed index
    itself in the descending pass.  A later run resumes from there. *)
Theorem X11_failed_step_keeps_last_version
    fuel dir target w names ms cur f e w' :
  keeps_tracking R apply ->
  ReadDir fs dir = inr names -> loadMigrations names = inr ms ->
  all_readable fs dir ms ->
  0 <= target <= maxMigration ms -> maxMigration ms < max_int ->
  (Z.to_nat (maxMigration ms) <= fuel)%nat ->
  faults (conn w) = [] ->
  tracking (db (conn w)) = Some cur -> 0 <= cur <= maxMigration ms ->
  MigrateDatabaseP fuel dir target w = (Err (Executing f e), w') ->
  exists idx,
    (cur < idx <= target /\ f = Join dir (at_key (upFiles ms) idx) /\
     tracking (db (conn w')) = Some (idx - 1)) \/
    (target < idx <= cur /\ f = Join dir (at_key (downFiles ms) idx) /\
     tracking (db (conn w')) = Some idx).
Proof.
  intros Hkeep Hdir Hload Hall Htarget Hmax Hfuel Hf Htr Hcur Hrun.
  destruct (loadMigrations_loaded _ _ Hload) as [[Hms _] _].
  assert (Hint : is_int cur) by (unfold is_int, min_int; lia).
  pose proof (getVersion_pool_stored R apply w cur Hf Htr Hint) as Hv.
  assert (Hres : resolve target ms = target).
  { unfold resolve. destruct (Z.eqb_spec target (-1)); [lia|done]. }
  rewrite (MigrateDatabase_read _ _ _ _ _ _ _ Hv), Hdir, Hload in Hrun.
  simpl in Hrun. rewrite Hres in Hrun.
  rewrite migrate_plan in Hrun; [|unfold is_int, min_int; lia..].
  pose proof (plan_ready fs dir ms cur target Hall Hcur Htarget) as Hready.
  assert (Hready' : Forall (fun step => exists content,
                              ReadFile fs step.1 = inr content)
                           (plan dir ms cur target)).
  { eapply Forall_impl; [exact Hready|]. by intros step [Hc _]. }
  set (w2 := logged (conn w) [CallReadDir dir]
               (logged (conn w) [CallQueryRow select_sql] w)) in *.
  unfold plan in *. case_decide as Hlt.
  - destruct (run_plan_pool_failed 1 _ w2 cur f e w' Hkeep Hf Htr
                (up_plan_chained _ _ _ _) Hready' Hrun) as (v & Hin & Hv').
    unfold up_plan in Hin. apply list_elem_of_fmap in Hin as (idx & [= -> ->] & Hidx).
    apply elem_of_seqZ in Hidx. exists idx. left.
    split; [lia|]. split; [done|]. done.
  - destruct (run_plan_pool_failed (-1) _ w2 cur f e w' Hkeep Hf Htr
                (down_plan_chained _ _ _ _) Hready' Hrun) as (v & Hin & Hv').
    unfold down_plan in Hin.
    apply list_elem_of_fmap in Hin as (idx & [= -> ->] & Hidx).
    apply elem_of_reverse, elem_of_seqZ in Hidx. exists idx. right.
    split; [lia|]. split; [done|]. rewrite Hv'. f_equal. lia.
Qed.

End PoolMore.

Module NoDirectory.

(** A file system without the migrations directory. *)
Definition files : gmap string node := ∅.

End NoDirectory.

Lemma X10_bootstrap_precedes_directory_error_witness :
  let r := MigrateDatabase (Q := Scenario.pool) NoDirectory.files 10
             Fixture.dir (-1) Fixture.fresh in
  fst r = Err (PathError "open" "migrations") /\
  db (conn (snd r)) = mkDb (Some 0) [].
Proof.
  intros r.
  destruct (X10_bootstrap_precedes_directory_error (list string) Fixture.apply
              NoDirectory.files 10 Fixture.dir (-1) Fixture.fresh
              (PathError "open" "migrations") eq_refl eq_refl
              ltac:(vm_compute; reflexivity))
    as (w' & Hrun & Hdb & _).
  unfold r. rewrite Hrun. split; [reflexivity|exact Hdb].
Defined.

Lemma X11_failed_step_keeps_last_version_witness :
  let w := Scenario.at_version 0 ["bar"] [] in
  let r := MigrateDatabase (Q := Scenario.pool) Fixture.files 10
             Fixture.dir 3 w in
  fst r = Err (Executing "migrations/002-bar.up.sql"
                 (PqError "duplicate_table" "bar")) /\
  tracking (db (conn (snd r))) = Some 1.
Proof.
  intros w r.
  assert (Hrun : r = (Err (Executing "migrations/002-bar.up.sql"
                             (PqError "duplicate_table" "bar")), snd r))
    by (vm_compute; reflexivity).
  split; [by rewrite Hrun|].
  destruct (X11_failed_step_keeps_last_version (list string) Fixture.apply
              Fixture.files 10 Fixture.dir 3 w Scenario.names Scenario.ms 0
              "migrations/002-bar.up.sql" (PqError "duplicate_table" "bar")
              (snd r) ScenarioFacts.apply_keeps_tracking
              Scenario.names_listed Scenario.ms_loaded
              ScenarioFacts.files_readable
              ltac:(change (0 <= 3 <= 3); lia) ltac:(vm_compute; reflexivity)
              ltac:(vm_compute; lia) eq_refl eq_refl
              ltac:(change (0 <= 0 <= 3); lia) Hrun)
    as [idx [(Hidx & Hfile & Htr)|(Hidx & _)]]; [|lia].
  assert (idx = 1 \/ idx = 2 \/ idx = 3) as [->|[->| ->]] by lia.
  - vm_compute in Hfile. discriminate Hfile.
  - exact Htr.
  - vm_compute in Hfile. discriminate Hfile.
Defined.

Lemma X12_by_way_of_an_intermediate_version_witness :
  let by_way := MigrateDatabase (Q := Scenario.pool) Fixture.files 10
                  Fixture.dir 3
                  (snd (MigrateDatabase (Q := Scenario.pool) Fixture.files 10
                          Fixture.dir 2 Fixture.fresh)) in
  let direct := MigrateDatabase (Q := Scenario.pool) Fixture.files 10
                  Fixture.dir 3 Fixture.fresh in
  fst by_way = fst direct /\ conn (snd by_way) = conn (snd direct).
Proof.
  intros by_way direct.
  apply (X12_by_way_of_an_intermediate_version (list string) Fixture.apply
           Fixture.files 10 Fixture.dir 0 2 3 Fixture.fresh
           (snd (getVersion (Q := Scenario.pool) Fixture.fresh))
           (snd (MigrateDatabase (Q := Scenario.pool) Fixture.files 10
                   Fixture.dir 2 Fixture.fresh))).
  - reflexivity.
  - vm_compute. reflexivity.
  - vm_compute. split; discriminate.
  - vm_compute. split; discriminate.
  - discriminate.
  - discriminate.
  - vm_compute. reflexivity.
  - left. lia.
  - vm_compute. lia.
  - vm_compute. reflexivity.
Defined.

(** * The test helper: [CallbackConnector] and [GetTestSchema]
    (lines 175-236) *)

(** What the helper uses of lib/pq, database/sql and database/sql/driver,
    over a state [S] of the server and the network: [DBPing],
    [DBExecContext] and [DBClose] are the methods of the pool that
    [sql.OpenDB] makes of a connector. *)
Class Driver (S : Type) : Type := {
  Connector : Type;
  DriverConn : Type;
  NewConnector : string -> error + Connector;
  ConnectorConnect : Connector -> S -> (error + DriverConn) * S;
  ConnExecContext : DriverConn -> string -> S -> option error * S;
  DBPing : Connector -> S -> option error * S;
  DBExecContext : Connector -> string -> S -> option error * S;
  DBClose : Connector -> S -> option error * S
}.

(** The errors of the helper: the ones it passes on, and the one it wraps
    ("preparing connection to search_path: %w"). *)
Inductive setup_error : Type :=
| Passed (e : error)
| Preparing (cause : error).

Inductive Event : Type :=
| EvPing
| EvSleep                       (* time.Sleep(time.Second) *)
| EvExec (q : string)           (* ExecContext of the pool *)
| EvClose
| EvConnect                     (* Connect of the pq connector *)
| EvConnExec (q : string).      (* on the new driver connection *)

Global Instance Event_eq_dec : EqDecision Event.
Proof. solve_decision. Defined.

Definition nl : string := String "010" "".
Definition tab : string := String "009" "".

(** The format of lines 215-218, a raw string with its line breaks and
    tabs. *)
Definition schema_sql (name : string) : string :=
  nl +:+ tab +:+ tab +:+ "DROP SCHEMA IF EXISTS " +:+ name +:+ " CASCADE;" +:+
  nl +:+ tab +:+ tab +:+ "CREATE SCHEMA " +:+ name +:+ ";" +:+
  nl +:+ tab.

Definition search_path_sql (name : string) : string :=
  "SET search_path TO " +:+ name.

Section TestHelper.

Context {S : Type} `{D : Driver S}.

(** The state and the events so far. *)
Definition T (A : Type) : Type := S * list Event -> A * (S * list Event).

Definition on_server {A} (ev : Event) (f : S -> A * S) : T A :=
  fun '(s, l) => let '(a, s') := f s in (a, (s', l ++ [ev])).

Record CallbackConnector : Type := mkCallbackConnector {
  cc_Connector : Connector;
  cc_Callback : DriverConn -> T (option setup_error)
}.

(** Lines 180-189. *)
Definition Connect (tc : CallbackConnector) : T (setup_error + DriverConn) :=
  fun st =>
    match on_server EvConnect (ConnectorConnect (cc_Connector tc)) st with
    | (inl err, st1) => (inl (Passed err), st1)
    | (inr conn, st1) =>
        match cc_Callback tc conn st1 with
        | (Some err, st2) => (inl err, st2)
        | (None, st2) => (inr conn, st2)
        end
    end.

(** Lines 203-209: [n] tries are left; [err] is the error of the last
    try. *)
Fixpoint pingLoop (n : nat) (connector : Connector) (err : option error)
  : T (option error) :=
  match n with
  | O => fun st => (err, st)
  | Datatypes.S n' =>
      fun st =>
        match on_server EvPing (DBPing connector) st with
        | (None, st1) => (None, st1)
        | (Some e, st1) =>
            pingLoop n' connector (Some e)
              (snd (on_server EvSleep (fun s => ((), s)) st1))
        end
  end.

(** Lines 225-232. *)
Definition search_path_callback (name : string) (conn : DriverConn)
  : T (option setup_error) :=
  fun st =>
    match on_server (EvConnExec (search_path_sql name))
            (ConnExecContext conn (search_path_sql name)) st with
    | (Some err, st1) => (Some (Preparing err), st1)
    | (None, st1) => (None, st1)
    end.

(** Lines 191-236.  The pool returned is [sql.OpenDB] of the callback
    connector: it connects through [Connect] when it needs a
    connection. *)
Definition GetTestSchema (testURL name : string)
  : T (error + CallbackConnector) :=
  fun st =>
    match NewConnector testURL with
    | inl err => (inl err, st)
    | inr connector =>
        match pingLoop 30 connector None st with
        | (Some err, st1) => (inl err, st1)
        | (None, st1) =>
            match on_server (EvExec (schema_sql name))
                    (DBExecContext connector (schema_sql name)) st1 with
            | (Some err, st2) => (inl err, st2)
            | (None, st2) =>
                let st3 := snd (on_server EvClose (DBClose connector) st2) in
                (inr (mkCallbackConnector connector
                        (search_path_callback name)), st3)
            end
        end
    end.

End TestHelper.

Section TestHelperFacts.

Context {S : Type} `{D : Driver S}.

(** [k] failed tries, each followed by its sleep of a second. *)
Fixpoint retries (k : nat) : list Event :=
  match k with
  | O => []
  | Datatypes.S k' => EvPing :: EvSleep :: retries k'
  end.

Lemma retries_snoc k : retries k ++ [EvPing; EvSleep] = retries (Datatypes.S k).
Proof. induction k as [|k IH]; simpl; [done|]. by rewrite IH. Qed.

(** The loop stops at the first ping that succeeds, and gives up after
    [n] failures with the error and the state of the last ping. *)
Lemma pingLoop_shape n connector err (st st' : S * list Event) r :
  pingLoop n connector err st = (r, st') ->
  exists k, (k <= n)%nat /\
    ((k = n /\ snd st' = snd st ++ retries k /\
      ((n = O /\ r = err /\ st' = st) \/
       exists e s, r = Some e /\ DBPing connector s = (Some e, fst st'))) \/
     ((k < n)%nat /\ snd st' = snd st ++ retries k ++ [EvPing] /\ r = None /\
      exists s, DBPing connector s = (None, fst st'))).
Proof.
  revert err st. induction n as [|n IH]; intros err [s l] H; simpl in H.
  - simplify_eq. exists O. split; [lia|]. left. simpl. rewrite app_nil_r.
    split_and!; auto.
  - destruct (DBPing connector s) as [[e|] s1] eqn:Hping.
    + apply IH in H as (k & Hk & H). simpl in H. exists (Datatypes.S k).
      split; [lia|]. destruct H as [(-> & Hl & H)|(Hlt & Hl & -> & H)].
      * left. split; [done|]. split.
        { rewrite Hl, <- retries_snoc, <- !app_assoc. simpl.
          f_equal. clear. induction n as [|n IH]; simpl; [done|].
          by rewrite <- IH. }
        right. destruct H as [(-> & -> & ->)|H]; [|done].
        exists e, s. by rewrite Hping.
      * right. split; [lia|]. split; [|done].
        rewrite Hl. simpl. rewrite <- !app_assoc. done.
    + simplify_eq. exists O. split; [lia|]. right. simpl.
      split_and!; [lia|done|done|]. exists s. by rewrite Hping.
Qed.

(** X13. [GetTestSchema] on a URL that parses pings the server at most 30
    times and sleeps a second after each failed ping, also after the
    30th.  After 30 failures it returns the error of the last ping and has
    sent no statement; a ping that succeeds is the last one, and is
    followed by the one statement that drops and creates the schema, and
    by the close of that pool only if the statement succeeded.  A URL that
    does not parse returns its error with nothing done. *)
Theorem X13_ping_retries (testURL name : string) (st st' : S * list Event)
    (r : error + CallbackConnector) :
  GetTestSchema testURL name st = (r, st') ->
  match NewConnector testURL with
  | inl err => r = inl err /\ st' = st
  | inr connector =>
      exists k, (k <= 30)%nat /\
        ((k = 30%nat /\ snd st' = snd st ++ retries 30 /\
          exists e s, r = inl e /\ DBPing connector s = (Some e, fst st')) \/
         ((k < 30)%nat /\
          snd st' = snd st ++ retries k ++ [EvPing; EvExec (schema_sql name)] /\
          exists e, r = inl e) \/
         ((k < 30)%nat /\
          snd st' = snd st ++ retries k ++
                      [EvPing; EvExec (schema_sql name); EvClose] /\
          r = inr (mkCallbackConnector connector (search_path_callback name))))
  end.
Proof.
  unfold GetTestSchema. intros H.
  destruct (NewConnector testURL) as [err|connector]; [by simplify_eq|].
  destruct (pingLoop 30 connector None st) as [[e|] [s1 l1]] eqn:Hloop.
  - apply pingLoop_shape in Hloop as (k & Hk & Hloop). simplify_eq.
    exists k. split; [done|]. left.
    destruct Hloop as [(-> & Hl & [(? & _)|(e' & s & ? & Hp)])|(_ & _ & ? & _)];
      [done| |done].
    simplify_eq. split_and!; [done|done|]. by exists e', s.
  - apply pingLoop_shape in Hloop as (k & Hk & Hloop).
    destruct Hloop as [(-> & _ & [(? & _)|(? & ? & ? & _)])|(Hlt & Hl & _ & _)];
      [done|done|].
    simpl in Hl. exists k. split; [done|]. right.
    unfold on_server in H.
    destruct (DBExecContext connector (schema_sql name) s1) as [[e|] s2].
    + left. injection H as <- <-. simpl. split; [done|]. split; [|by exists e].
      rewrite Hl, <- !app_assoc. done.
    + right. destruct (DBClose connector s2) as [o s3].
      simpl in H. injection H as <- <-. simpl. split; [done|]. split; [|done].
      rewrite Hl, <- !app_assoc. done.
Qed.

(** X16. The connector of the pool that [GetTestSchema] returns hands out a
    connection only after SET search_path TO the schema name has succeeded
    on it, as the first statement on that connection; when that statement
    fails, no connection is handed out and the error is wrapped as
    [preparing connection to search_path]; when the dial fails, its error
    is passed on and nothing is sent. *)
Theorem X16_connection_prepared (testURL name : string)
    (st0 st1 st st' : S * list Event) (tc : CallbackConnector)
    (r : setup_error + DriverConn) :
  GetTestSchema testURL name st0 = (inr tc, st1) ->
  Connect tc st = (r, st') ->
  NewConnector testURL = inr (cc_Connector tc) /\
  ((exists e, r = inl (Passed e) /\
      ConnectorConnect (cc_Connector tc) (fst st) = (inl e, fst st') /\
      snd st' = snd st ++ [EvConnect]) \/
   (exists conn s1 e, r = inl (Preparing e) /\
      ConnectorConnect (cc_Connector tc) (fst st) = (inr conn, s1) /\
      ConnExecContext conn (search_path_sql name) s1 = (Some e, fst st') /\
      snd st' = snd st ++ [EvConnect; EvConnExec (search_path_sql name)]) \/
   (exists conn s1, r = inr conn /\
      ConnectorConnect (cc_Connector tc) (fst st) = (inr conn, s1) /\
      ConnExecContext conn (search_path_sql name) s1 = (None, fst st') /\
      snd st' = snd st ++ [EvConnect; EvConnExec (search_path_sql name)])).
Proof.
  unfold GetTestSchema. intros Hget Hc.
  destruct (NewConnector testURL) as [err|connector]; [by simplify_eq|].
  destruct (pingLoop 30 connector None st0) as [[e|] st2]; [by simplify_eq|].
  destruct (on_server _ _ st2) as [[e|] st3]; [by simplify_eq|].
  simplify_eq. split; [done|].
  destruct st as [s l].
  unfold Connect, search_path_callback, on_server in Hc. simpl in Hc. simpl.
  destruct (ConnectorConnect connector s) as [[e|conn] s1] eqn:Hdial.
  - left. injection Hc as <- <-. by exists e.
  - destruct (ConnExecContext conn (search_path_sql name) s1) as [[e|] s2] eqn:Hset;
      injection Hc as <- <-; simpl; rewrite <- ?app_assoc.
    + right. left. by exists conn, s1, e.
    + right. right. by exists conn, s1.
Qed.

End TestHelperFacts.

(** A server that refuses the first pings: the state is the list of the
    outcomes of the pings to come, and everything else succeeds. *)
Module StartingServer.

Definition ping (s : list (option error)) : option error * list (option error) :=
  match s with
  | [] => (None, [])
  | o :: s' => (o, s')
  end.

#[export] Instance driver : Driver (list (option error)) := {|
  Connector := string;
  DriverConn := unit;
  NewConnector url :=
    if decide (url = "postgres://%zz")
    then inl (DriverError "parse: invalid URL escape")
    else inr url;
  ConnectorConnect _ s := (inr (), s);
  ConnExecContext _ _ s := (None, s);
  DBPing _ := ping;
  DBExecContext _ _ s := (None, s);
  DBClose _ s := (None, s)
|}.

Definition refused : option error :=
  Some (DriverError "dial tcp: connect: connection refused").

End StartingServer.

Lemma X13_ping_retries_witness :
  let up_later := GetTestSchema (D := StartingServer.driver) "postgres://test" "s1"
                    ([StartingServer.refused; StartingServer.refused], []) in
  let never := GetTestSchema (D := StartingServer.driver) "postgres://test" "s1"
                 (replicate 40 StartingServer.refused, []) in
  snd (snd up_later) =
    [EvPing; EvSleep; EvPing; EvSleep; EvPing; EvExec (schema_sql "s1"); EvClose] /\
  fst never = inl (DriverError "dial tcp: connect: connection refused") /\
  snd (snd never) = retries 30 /\
  match NewConnector (Driver := StartingServer.driver) "postgres://test" with
  | inl err => False
  | inr connector =>
      exists k, (k <= 30)%nat /\
        ((k = 30%nat /\ snd (snd never) = [] ++ retries 30 /\
          exists e s, fst never = inl e /\
            DBPing connector s = (Some e, fst (snd never))) \/
         ((k < 30)%nat /\
          snd (snd never) = [] ++ retries k ++ [EvPing; EvExec (schema_sql "s1")] /\
          exists e, fst never = inl e) \/
         ((k < 30)%nat /\
          snd (snd never) = [] ++ retries k ++
                      [EvPing; EvExec (schema_sql "s1"); EvClose] /\
          fst never = inr (mkCallbackConnector connector
                             (search_path_callback "s1"))))
  end.
Proof.
  intros up_later never.
  split; [vm_compute; reflexivity|].
  split; [vm_compute; reflexivity|].
  split; [vm_compute; reflexivity|].
  exact (X13_ping_retries (D := StartingServer.driver) "postgres://test" "s1"
           (replicate 40 StartingServer.refused, []) (snd never) (fst never)
           (surjective_pairing never)).
Defined.

Lemma X16_connection_prepared_witness :
  let made := GetTestSchema (D := StartingServer.driver) "postgres://test" "s1"
                ([StartingServer.refused], []) in
  exists tc, fst made = inr tc /\
    fst (Connect tc ([], [])) = inr () /\
    snd (snd (Connect tc ([], []))) =
      [EvConnect; EvConnExec "SET search_path TO s1"].
Proof.
  intros made.
  exists (mkCallbackConnector (D := StartingServer.driver) "postgres://test"
            (search_path_callback "s1")).
  assert (Hmade : made = (inr (mkCallbackConnector (D := StartingServer.driver)
                                 "postgres://test" (search_path_callback "s1")),
                          snd made)) by (vm_compute; reflexivity).
  split; [by rewrite Hmade|].
  destruct (X16_connection_prepared (D := StartingServer.driver)
              "postgres://test" "s1" ([StartingServer.refused], []) (snd made)
              ([], [])
              (snd (Connect (mkCallbackConnector (D := StartingServer.driver)
                               "postgres://test" (search_path_callback "s1"))
                      ([], [])))
              _
              (fst (Connect (mkCallbackConnector (D := StartingServer.driver)
                               "postgres://test" (search_path_callback "s1"))
                      ([], [])))
              Hmade (surjective_pairing _))
    as (_ & [(e & He & _)|[(conn & s1 & e & He & _)|(conn & s1 & He & _ & _ & Hl)]]).
  - vm_compute in He. discriminate.
  - vm_compute in He. discriminate.
  - split; [vm_compute; reflexivity|]. vm_compute. reflexivity.
Defined.
